(** * load_data.py: the books/authors CSV loader, embedded and verified

    The script connects to PostgreSQL with a bounded number of retries,
    reads [/app/books.csv] row by row, inserts one [books] row per CSV
    row, resolves every author mention through [get_or_create_author] and
    links book and author in [book_author], then closes the cursor and the
    connection.

    The embedding follows the script statement by statement.  The database
    is an explicit state: the tables as committed, the tables as the open
    transaction sees them, the two identifier sequences and the rows held
    by the cursor.  Everything the script does to the outside (printing,
    sleeping, connecting, executing a statement, committing, closing) is
    recorded in a trace. *)

From Stdlib Require Import ZArith List Ascii String Lia.
From stdpp Require Import base list strings gmap.

Local Open Scope string_scope.
Local Open Scope list_scope.
Local Open Scope Z_scope.

(** ** Python text operations used by the loader *)

(** A Python [str]: the sequence of its Unicode code points. *)
Definition unicode : Type := list N.

(** [ord(c)] for a character written as a literal. *)
Definition ord (c : ascii) : N := N_of_ascii c.

(** The text written as a literal: one code point per character. *)
Definition chars (s : string) : unicode := ord <$> list_ascii_of_string s.

Arguments ord : simpl never.
Arguments chars : simpl never.

Module PyStr.

(** [str.isspace] on one code point, which is also what [str.strip]
    removes: 9-13, 28-32, U+0085, U+00A0, U+1680, U+2000-U+200A, U+2028,
    U+2029, U+202F, U+205F and U+3000. *)
Definition isspace (c : N) : bool :=
  (((9 <=? c) && (c <=? 13)) || ((28 <=? c) && (c <=? 32))
   || (c =? 133) || (c =? 160) || (c =? 5760)
   || ((8192 <=? c) && (c <=? 8202))
   || (c =? 8232) || (c =? 8233) || (c =? 8239) || (c =? 8287) || (c =? 12288))%N.

Fixpoint lstrip (s : unicode) : unicode :=
  match s with
  | [] => []
  | c :: s' => if isspace c then lstrip s' else s
  end.

Fixpoint rstrip (s : unicode) : unicode :=
  match s with
  | [] => []
  | c :: s' =>
      match rstrip s' with
      | [] => if isspace c then [] else [c]
      | r => c :: r
      end
  end.

(** [s.strip()] *)
Definition strip (s : unicode) : unicode := rstrip (lstrip s).

(** [s.split(sep)] for a one-character separator: the pieces between the
    separators, empty pieces kept, so the result is never empty. *)
Fixpoint split (sep : N) (s : unicode) : list unicode :=
  match s with
  | [] => [[]]
  | c :: s' =>
      if (c =? sep)%N then [] :: split sep s'
      else match split sep s' with
           | [] => [[c]]
           | piece :: pieces => (c :: piece) :: pieces
           end
  end.

(** [sep.join(pieces)], the inverse of [split]. *)
Fixpoint join (sep : N) (pieces : list unicode) : unicode :=
  match pieces with
  | [] => []
  | [piece] => piece
  | piece :: rest => piece ++ sep :: join sep rest
  end.

Fixpoint all_space (s : unicode) : bool :=
  match s with
  | [] => true
  | c :: s' => isspace c && all_space s'
  end.

Definition starts_with_space (s : unicode) : bool :=
  match s with
  | [] => false
  | c :: _ => isspace c
  end.

Fixpoint ends_with_space (s : unicode) : bool :=
  match s with
  | [] => false
  | [c] => isspace c
  | _ :: s' => ends_with_space s'
  end.

Fixpoint contains (c : N) (s : unicode) : bool :=
  match s with
  | [] => false
  | d :: s' => (d =? c)%N || contains c s'
  end.

End PyStr.

(** ** The storage schema

    One record per table, with the column names of the statements. *)

(** A value handed to the store as a statement parameter: a Python [str],
    or [None], which psycopg2 sends as NULL. *)
Abbreviation value := (option unicode).

Module authors.
Record row := { author_id : Z; name : unicode }.
End authors.

Module books.
Record row := {
  book_id : Z;
  isbn13 : value;
  publication_year : value;
  title : value;
  rating_avg : value;
  rating_count : value;
  image_url : value;
  image_small_url : value
}.
End books.

Module book_author.
Record row := { book_id : Z; author_id : Z }.
End book_author.

Record Tables := {
  t_authors : list authors.row;
  t_books : list books.row;
  t_book_author : list book_author.row
}.

(** The statements the script sends through [cur.execute]. *)
Inductive statement :=
| SelectAuthor (name : unicode)
    (* SELECT author_id FROM authors WHERE name = %s; *)
| InsertAuthor (name : unicode)
    (* INSERT INTO authors (name) VALUES (%s) RETURNING author_id; *)
| InsertBook (columns : list string) (params : list value)
    (* INSERT INTO books (columns) VALUES (%s, ...) RETURNING book_id; *)
| InsertBookAuthor (book_id author_id : Z)
    (* INSERT INTO book_author (book_id, author_id) VALUES (%s, %s)
       ON CONFLICT (book_id, author_id) DO NOTHING; *).

(** ** Exceptions, output and the trace *)

Inductive exn :=
| FileNotFoundError (text : string)
| OSError (text : string)
| CsvError (text : string)
| KeyError (key : string)
| AttributeError (text : string)
| TypeError (text : string)
| DatabaseError (text : string).

(** [str(e)], the text an f-string prints for an exception. *)
Definition str (e : exn) : string :=
  match e with
  | FileNotFoundError text => text
  | OSError text => text
  | CsvError text => text
  | KeyError key => "'" +:+ key +:+ "'"
  | AttributeError text => text
  | TypeError text => text
  | DatabaseError text => text
  end.

(** One constructor per [print] of the script, with the values it
    interpolates. *)
Inductive message :=
| MsgConnecting                          (* Connecting to the database... *)
| MsgConnected                           (* Connected to the database! *)
| MsgConnectFailed (e : string)          (* Failed to connect to the database: {e} *)
| MsgRetrying (delay : Z)                (* Retrying in {delay} seconds... *)
| MsgGetOrCreate (name : unicode)        (* Getting or creating author: {name} *)
| MsgAuthorExists (name : unicode) (id : Z)
                                         (* Author {name} already exists with ID: {id} *)
| MsgAuthorCreated (name : unicode) (id : Z)
                                         (* Created new author {name} with ID: {id} *)
| MsgLoading                             (* Loading data from CSV... *)
| MsgInsertingBook (title isbn13 : value)
                                         (* Inserting book: {title} with ISBN: {isbn13} *)
| MsgInsertedBook (id : Z)               (* Inserted book with ID: {id} *)
| MsgFileError (e : string)              (* Error: {e} *)
| MsgLoadError (e : string)              (* An error occurred while loading data: {e} *)
| MsgClosing                             (* Closing the database connection. *).

Inductive event :=
| Output (m : message)
| Sleep (seconds : Z)
| Connect                                (* psycopg2.connect(...) *)
| Execute (q : statement)                (* cur.execute(q) *)
| Commit                                 (* conn.commit() *)
| CursorClose                            (* cur.close() *)
| ConnClose                              (* conn.close() *).

(** ** The world the script runs in *)

Record World := {
  committed : Tables;      (* what the store holds durably *)
  current : Tables;        (* what the open transaction sees *)
  authors_seq : Z;         (* next generated authors.author_id *)
  books_seq : Z;           (* next generated books.book_id *)
  cursor : list Z;         (* rows (of one column) the cursor still holds *)
  trace : list event       (* everything done so far, oldest first *)
}.

Definition emit (e : event) (w : World) : World :=
  {| committed := committed w; current := current w;
     authors_seq := authors_seq w; books_seq := books_seq w;
     cursor := cursor w; trace := trace w ++ [e] |}.

Definition set_cursor (rows : list Z) (w : World) : World :=
  {| committed := committed w; current := current w;
     authors_seq := authors_seq w; books_seq := books_seq w;
     cursor := rows; trace := trace w |}.

Definition set_current (t : Tables) (w : World) : World :=
  {| committed := committed w; current := t;
     authors_seq := authors_seq w; books_seq := books_seq w;
     cursor := cursor w; trace := trace w |}.

Definition set_committed (t : Tables) (w : World) : World :=
  {| committed := t; current := current w;
     authors_seq := authors_seq w; books_seq := books_seq w;
     cursor := cursor w; trace := trace w |}.

(** ** Results and the state-and-exception monad *)

Inductive result (A : Type) :=
| Ok (a : A)
| Raise (e : exn).
Arguments Ok {A} a.
Arguments Raise {A} e.

Definition M (A : Type) : Type := World -> result A * World.

Definition ret {A} (a : A) : M A := fun w => (Ok a, w).

Definition raise {A} (e : exn) : M A := fun w => (Raise e, w).

Definition bind {A B} (m : M A) (k : A -> M B) : M B :=
  fun w =>
    match m w with
    | (Ok a, w') => k a w'
    | (Raise e, w') => (Raise e, w')
    end.

Notation "'let*' x ':=' m 'in' k" := (bind m (fun x => k))
  (at level 10, x name, m at level 100, k at level 200).
Notation "m ';;' k" := (bind m (fun _ => k))
  (at level 100, k at level 200, right associativity).

Definition print (m : message) : M unit := fun w => (Ok tt, emit (Output m) w).

(** An input row as [csv.DictReader] yields it: header name to field, the
    field being [None] when the line is shorter than the header. *)
Abbreviation Row := (gmap string value).

(** [row[key]] *)
Definition getitem (row : Row) (key : string) : M value :=
  match row !! key with
  | Some v => ret v
  | None => raise (KeyError key)
  end.

(** What iterating the reader yields: a row, or an exception raised by the
    reader itself. *)
Inductive csv_item :=
| CsvRow (row : Row)
| CsvRaises (e : exn).

(** What [open('/app/books.csv', ...)] gives. *)
Inductive csv_file :=
| OpenRaises (e : exn)
| Opened (items : list csv_item).

(** What one [psycopg2.connect] does. *)
Inductive attempt_result :=
| Accepts
| Refuses (text : string).

Inductive connect_result :=
| Connected           (* return conn *)
| FellThrough         (* the for loop ran out: the function returns None *)
| SysExit (code : Z)  (* exit(code) *).

(** ** The store *)

(** Rows a [SELECT author_id FROM authors WHERE name = %s] returns, in
    table order. *)
Definition select_author (name : unicode) (t : Tables) : list Z :=
  authors.author_id <$> filter (fun r => authors.name r = name) (t_authors t).

(** The value an INSERT gives to column [c]: the parameter at the position
    of [c] in the column list, NULL when the column is not listed. *)
Fixpoint column_value (columns : list string) (params : list value) (c : string) : value :=
  match columns, params with
  | c' :: columns', p :: params' =>
      if String.eqb c' c then p else column_value columns' params' c
  | _, _ => None
  end.

Definition book_of_insert (id : Z) (columns : list string) (params : list value) : books.row :=
  {| books.book_id := id;
     books.isbn13 := column_value columns params "isbn13";
     books.publication_year := column_value columns params "publication_year";
     books.title := column_value columns params "title";
     books.rating_avg := column_value columns params "rating_avg";
     books.rating_count := column_value columns params "rating_count";
     books.image_url := column_value columns params "image_url";
     books.image_small_url := column_value columns params "image_small_url" |}.

(** The conflict target of the book_author insert. *)
Definition linked (book_id author_id : Z) (rows : list book_author.row) : bool :=
  existsb (fun r => (book_author.book_id r =? book_id)
                    && (book_author.author_id r =? author_id)) rows.

(** Modelled from the spec: the schema (the CREATE TABLE statements) is
    missing; the spec gives
    authors(author_id PK generated, name),
    books(book_id PK generated, isbn13, publication_year, title,
    rating_avg, rating_count, image_url, image_small_url) and
    book_author(book_id FK, author_id FK, unique constraint on the pair).
    A generated key is the next value of the table's sequence; inserted
    rows go to the end of the table; the conflict-ignoring insert does
    nothing when the pair is already there. *)
Definition run_statement (q : statement) (w : World) : World :=
  let t := current w in
  match q with
  | SelectAuthor name => set_cursor (select_author name t) w
  | InsertAuthor name =>
      let id := authors_seq w in
      {| committed := committed w;
         current := {| t_authors := t_authors t ++ [{| authors.author_id := id; authors.name := name |}];
                       t_books := t_books t;
                       t_book_author := t_book_author t |};
         authors_seq := id + 1; books_seq := books_seq w;
         cursor := [id]; trace := trace w |}
  | InsertBook columns params =>
      let id := books_seq w in
      {| committed := committed w;
         current := {| t_authors := t_authors t;
                       t_books := t_books t ++ [book_of_insert id columns params];
                       t_book_author := t_book_author t |};
         authors_seq := authors_seq w; books_seq := id + 1;
         cursor := [id]; trace := trace w |}
  | InsertBookAuthor b a =>
      if linked b a (t_book_author t) then set_cursor [] w
      else
        set_cursor []
          (set_current
             {| t_authors := t_authors t;
                t_books := t_books t;
                t_book_author := t_book_author t
                                 ++ [{| book_author.book_id := b; book_author.author_id := a |}] |}
             w)
  end.

(** ** Observations on tables and traces *)

(** The identifier a lookup by name gives: the first row the SELECT
    returns. *)
Definition author_lookup (name : unicode) (t : Tables) : option Z :=
  head (select_author name t).

(** How many book_author rows hold the pair. *)
Definition count_pair (b a : Z) (rows : list book_author.row) : nat :=
  length (filter (fun r => book_author.book_id r = b /\ book_author.author_id r = a) rows).

(** The book_author rows of one book. *)
Definition links_of (b : Z) (rows : list book_author.row) : list book_author.row :=
  filter (fun r => book_author.book_id r = b) rows.

(** The names the resolver was called with, in order. *)
Fixpoint resolutions (tr : list event) : list unicode :=
  match tr with
  | [] => []
  | Output (MsgGetOrCreate name) :: tr' => name :: resolutions tr'
  | _ :: tr' => resolutions tr'
  end.

(** The statements sent to the store, in order. *)
Fixpoint executed (tr : list event) : list statement :=
  match tr with
  | [] => []
  | Execute q :: tr' => q :: executed tr'
  | _ :: tr' => executed tr'
  end.

(** The book_id of every association insert, in order. *)
Fixpoint association_books (qs : list statement) : list Z :=
  match qs with
  | [] => []
  | InsertBookAuthor b _ :: qs' => b :: association_books qs'
  | _ :: qs' => association_books qs'
  end.

(** Whether an event touches the store. *)
Definition touches_store (e : event) : bool :=
  match e with
  | Execute _ | Commit => true
  | _ => false
  end.

(** The author names a row mentions. *)
Definition row_authors (row : Row) : list unicode :=
  match row !! "authors" with
  | Some (Some s) => PyStr.strip <$> PyStr.split (ord ",") s
  | _ => []
  end.

(** How many of [names] are new: not in [seen] and not met earlier in
    [names]. *)
Fixpoint count_new (seen names : list unicode) : nat :=
  match names with
  | [] => 0
  | n :: rest => ((if decide (n ∈ seen) then 0 else 1) + count_new (n :: seen) rest)%nat
  end.

(** The eight header names the loop body reads. *)
Definition csv_columns : list string :=
  ["isbn13"; "original_publication_year"; "title"; "average_rating";
   "ratings_count"; "image_url"; "small_image_url"; "authors"].

(** A row the loop body can read: every column is there, and the authors
    field is text. *)
Definition readable (row : Row) : Prop :=
  Forall (fun key => is_Some (row !! key)) csv_columns
  /\ exists s, row !! "authors" = Some (Some s).

(** One table is an extension of the other: same rows, then more. *)
Definition tables_le (t t' : Tables) : Prop :=
  t_authors t `prefix_of` t_authors t'
  /\ t_books t `prefix_of` t_books t'
  /\ t_book_author t `prefix_of` t_book_author t'.

(** Nothing the open transaction did before the last commit is missing
    from it now. *)
Definition settled (w : World) : Prop := tables_le (committed w) (current w).

(** From [w] to [w'] no row was lost, durable or pending. *)
Definition keeps (w w' : World) : Prop :=
  settled w ->
  settled w'
  /\ tables_le (committed w) (committed w')
  /\ tables_le (current w) (current w').

(** The constraints of the schema that the proofs rely on, on the tables
    of the open transaction: author_id is a key of authors, generated
    keys lie below their sequence, and book_author refers to books that
    were generated. *)
Record wf (w : World) : Prop := {
  wf_author_key : NoDup (authors.author_id <$> t_authors (current w));
  wf_author_seq : Forall (fun r => authors.author_id r < authors_seq w) (t_authors (current w));
  wf_link_seq : Forall (fun r => book_author.book_id r < books_seq w) (t_book_author (current w))
}.

(** The world after some more events, nothing else changed. *)
Definition emits (es : list event) (w : World) : World :=
  {| committed := committed w; current := current w;
     authors_seq := authors_seq w; books_seq := books_seq w;
     cursor := cursor w; trace := trace w ++ es |}.

(** The durations slept, in order. *)
Fixpoint sleeps (tr : list event) : list Z :=
  match tr with
  | [] => []
  | Sleep d :: tr' => d :: sleeps tr'
  | _ :: tr' => sleeps tr'
  end.

(** What the connection loop adds to the trace for an attempt that fails
    and is retried. *)
Definition retried (delay : Z) (e : string) : list event :=
  [Connect; Output (MsgConnectFailed e); Output (MsgRetrying delay); Sleep delay].

Definition refusal (r : attempt_result) : string :=
  match r with
  | Refuses e => e
  | Accepts => ""
  end.

(** ** Sample stores and inputs *)

Definition accept_all : Tables -> statement -> option string := fun _ _ => None.

Definition commit_ok : Tables -> option string := fun _ => None.

(** A store that refuses to insert one author name. *)
Definition refuse_author (bad : unicode) : Tables -> statement -> option string :=
  fun _ q =>
    match q with
    | InsertAuthor name => if bool_decide (name = bad) then Some "value rejected" else None
    | _ => None
    end.

(** Servers: one that accepts at once, one that refuses four times and
    then accepts, one that always refuses. *)
Definition always_accepts : nat -> attempt_result := fun _ => Accepts.

Definition fifth_accepts : nat -> attempt_result :=
  fun k => if (k <? 4)%nat then Refuses "connection refused" else Accepts.

Definition never_accepts : nat -> attempt_result := fun _ => Refuses "connection refused".

Definition empty_tables : Tables :=
  {| t_authors := []; t_books := []; t_book_author := [] |}.

Definition fresh_world : World :=
  {| committed := empty_tables; current := empty_tables;
     authors_seq := 1; books_seq := 1; cursor := []; trace := [] |}.

(** An authors field with text outside Latin-1: "Ann", a comma, an em
    space (U+2003), the Cyrillic letter U+0445 and a no-break space
    (U+00A0). *)
Definition wide_field : unicode := chars "Ann," ++ [8195; 1093; 160]%N.

Definition sample_row (authors : unicode) : Row :=
  list_to_map
    [("isbn13", Some (chars "9780439023480"));
     ("original_publication_year", Some (chars "2008.0"));
     ("title", Some (chars "The Hunger Games"));
     ("average_rating", Some (chars "4.34"));
     ("ratings_count", Some (chars "4780653"));
     ("image_url", Some (chars "https://images/m.jpg"));
     ("small_image_url", Some (chars "https://images/s.jpg"));
     ("authors", Some authors)].

(** ** Further observations *)

(** How often a character occurs in a text. *)
Fixpoint count_char (c : N) (s : unicode) : nat :=
  match s with
  | [] => 0%nat
  | d :: s' => ((if (d =? c)%N then 1 else 0) + count_char c s')%nat
  end.


(** The columns the book insert reads, in the order the loop body first
    reads them. *)
Definition book_keys : list string :=
  ["title"; "isbn13"; "original_publication_year"; "average_rating";
   "ratings_count"; "image_url"; "small_image_url"].

(** The first of [keys] that the row lacks. *)
Fixpoint first_missing (row : Row) (keys : list string) : option string :=
  match keys with
  | [] => None
  | key :: keys' =>
      match row !! key with
      | None => Some key
      | Some _ => first_missing row keys'
      end
  end.

(** The books row the insert of a CSV row stores under [id]: the fields
    of the row, NULL for a field that is None. *)
Definition stored_book (id : Z) (row : Row) : books.row :=
  {| books.book_id := id;
     books.isbn13 := default None (row !! "isbn13");
     books.publication_year := default None (row !! "original_publication_year");
     books.title := default None (row !! "title");
     books.rating_avg := default None (row !! "average_rating");
     books.rating_count := default None (row !! "ratings_count");
     books.image_url := default None (row !! "image_url");
     books.image_small_url := default None (row !! "small_image_url") |}.

(** The unique constraint of book_author. *)
Definition unique_pairs (rows : list book_author.row) : Prop :=
  forall b a, (count_pair b a rows <= 1)%nat.

(** From [w] to [w'] the trace only got events that satisfy [P]. *)
Definition extends_with (P : event -> Prop) (w w' : World) : Prop :=
  exists delta, trace w' = trace w ++ delta /\ Forall P delta.

Definition not_a_close (e : event) : Prop :=
  e <> CursorClose /\ e <> ConnClose.

(** The unique constraint holds in both views of the store. *)
Definition pairs_unique (w : World) : Prop :=
  unique_pairs (t_book_author (current w))
  /\ unique_pairs (t_book_author (committed w)).

(** Sample rows the loop body cannot read: one without the title column,
    one without the authors column, one from a line that was too short,
    whose authors field is None. *)
Definition untitled_row : Row := delete "title" (sample_row (chars "Jane Doe")).

Definition authorless_row : Row := delete "authors" (sample_row (chars "Jane Doe")).

Definition short_row : Row := <["authors" := None]> (sample_row (chars "Jane Doe")).

(** ** The loader *)

Section Loader.

(** The schema is not part of the script.  Whatever else the storage layer
    enforces (column types, lengths, NOT NULL, foreign keys, a lost
    connection) is a
    parameter: the error text, if any, with which the store refuses a
    statement, or a commit, given the tables of the open transaction. *)
Variable db_error : Tables -> statement -> option string.
Variable commit_error : Tables -> option string.

(** *** Statements, commits and the cursor *)

(** [cur.execute(q)] *)
Definition execute (q : statement) : M unit := fun w =>
  let w := emit (Execute q) w in
  match db_error (current w) q with
  | Some text => (Raise (DatabaseError text), w)
  | None => (Ok tt, run_statement q w)
  end.

(** [cur.fetchone()]: the next row of the result, or None. *)
Definition fetchone : M (option Z) := fun w =>
  match cursor w with
  | [] => (Ok None, w)
  | r :: rows => (Ok (Some r), set_cursor rows w)
  end.

(** [r[0]] for a fetched row [r] *)
Definition subscript0 (r : option Z) : M Z :=
  match r with
  | Some id => ret id
  | None => raise (TypeError "'NoneType' object is not subscriptable")
  end.

(** [conn.commit()]: everything the open transaction did becomes
    durable. *)
Definition commit : M unit := fun w =>
  let w := emit Commit w in
  match commit_error (current w) with
  | Some text => (Raise (DatabaseError text), w)
  | None => (Ok tt, set_committed (current w) w)
  end.

(** A connection just opened sees the durable tables. *)
Definition session_start (w : World) : World := set_cursor [] (set_current (committed w) w).

(** [cur.close()] *)
Definition cursor_close (w : World) : World := set_cursor [] (emit CursorClose w).

(** [conn.close()]: what was not committed is discarded. *)
Definition conn_close (w : World) : World := set_current (committed w) (emit ConnClose w).

(** *** connect_to_database *)

(** [server k] is what the [k]-th call of [psycopg2.connect] does.
    [time.sleep(delay)] is taken to return, as it does for a delay of 0
    to 9223372036 seconds (the script's is 5); what is proved about
    other delays than 5 is stated for that range. *)
Fixpoint connect_attempts (server : nat -> attempt_result) (retries delay : Z)
    (attempt : nat) (todo : nat) (w : World) : connect_result * World :=
  match todo with
  | O => (FellThrough, w)
  | S todo' =>
      let w := emit Connect w in
      match server attempt with
      | Accepts => (Connected, emit (Output MsgConnected) w)
      | Refuses e =>
          let w := emit (Output (MsgConnectFailed e)) w in
          if Z.of_nat attempt <? retries - 1 then
            connect_attempts server retries delay (S attempt) todo'
              (emit (Sleep delay) (emit (Output (MsgRetrying delay)) w))
          else (SysExit 1, w)
      end
  end.

Definition connect_to_database (server : nat -> attempt_result) (retries delay : Z)
    (w : World) : connect_result * World :=
  connect_attempts server retries delay 0 (Z.to_nat retries) (emit (Output MsgConnecting) w).

(** *** get_or_create_author *)

Definition get_or_create_author (name : unicode) : M Z :=
  print (MsgGetOrCreate name) ;;
  execute (SelectAuthor name) ;;
  let* author := fetchone in
  match author with
  | Some id =>
      print (MsgAuthorExists name id) ;;
      ret id
  | None =>
      execute (InsertAuthor name) ;;
      commit ;;
      let* r := fetchone in
      let* new_author_id := subscript0 r in
      print (MsgAuthorCreated name new_author_id) ;;
      ret new_author_id
  end.

(** *** The ingestion loop *)

Definition books_columns : list string :=
  ["isbn13"; "publication_year"; "title"; "rating_avg"; "rating_count";
   "image_url"; "image_small_url"].

(** [for author_name in authors: ...] *)
Fixpoint link_authors (book_id : Z) (names : list unicode) : M unit :=
  match names with
  | [] => ret tt
  | author_name :: rest =>
      let* author_id := get_or_create_author author_name in
      execute (InsertBookAuthor book_id author_id) ;;
      link_authors book_id rest
  end.

(** [[author.strip() for author in field.split(',')]]; on None the
    attribute lookup fails. *)
Definition split_authors (field : value) : M (list unicode) :=
  match field with
  | Some s => ret (PyStr.strip <$> PyStr.split (ord ",") s)
  | None => raise (AttributeError "'NoneType' object has no attribute 'split'")
  end.

(** [INSERT INTO books ...] of one row and the fetch of its book_id. *)
Definition insert_book (row : Row) : M Z :=
  let* title := getitem row "title" in
  let* isbn := getitem row "isbn13" in
  print (MsgInsertingBook title isbn) ;;
  let* p1 := getitem row "isbn13" in
  let* p2 := getitem row "original_publication_year" in
  let* p3 := getitem row "title" in
  let* p4 := getitem row "average_rating" in
  let* p5 := getitem row "ratings_count" in
  let* p6 := getitem row "image_url" in
  let* p7 := getitem row "small_image_url" in
  execute (InsertBook books_columns [p1; p2; p3; p4; p5; p6; p7]) ;;
  let* r := fetchone in
  let* book_id := subscript0 r in
  print (MsgInsertedBook book_id) ;;
  ret book_id.

(** The body of [for row in reader]. *)
Definition process_row (row : Row) : M unit :=
  let* book_id := insert_book row in
  let* field := getitem row "authors" in
  let* authors := split_authors field in
  link_authors book_id authors ;;
  commit.

Fixpoint ingest (items : list csv_item) : M unit :=
  match items with
  | [] => ret tt
  | CsvRow row :: rest => process_row row ;; ingest rest
  | CsvRaises e :: _ => raise e
  end.

(** The [try] block: open the file and loop over its rows. *)
Definition load_csv (file : csv_file) : M unit :=
  match file with
  | OpenRaises e => raise e
  | Opened items => ingest items
  end.

(** The two [except] clauses. *)
Definition handle (r : result unit) (w : World) : World :=
  match r with
  | Ok _ => w
  | Raise (FileNotFoundError text) => emit (Output (MsgFileError (str (FileNotFoundError text)))) w
  | Raise e => emit (Output (MsgLoadError (str e))) w
  end.

(** Everything after the connection is made: cursor, ingestion, teardown.
    The script then ends, with status 0. *)
Definition ingest_and_teardown (file : csv_file) (w : World) : Z * World :=
  let w := session_start w in
  let w := emit (Output MsgLoading) w in
  let (r, w) := load_csv file w in
  let w := handle r w in
  let w := emit (Output MsgClosing) w in
  let w := cursor_close w in
  let w := conn_close w in
  (0, w).

(** The whole script: its exit status and the world it leaves.  When
    [connect_to_database] returns None, [conn.cursor()] raises an
    uncaught AttributeError and Python exits with status 1. *)
Definition main (server : nat -> attempt_result) (file : csv_file) (w : World) : Z * World :=
  match connect_to_database server 5 5 w with
  | (Connected, w) => ingest_and_teardown file w
  | (FellThrough, w) => (1, w)
  | (SysExit code, w) => (code, w)
  end.

(** *** Notions used to state what the loader keeps *)

(** A relation between the world before and the world after, kept by a
    computation whatever its outcome. *)
Definition respects {A} (R : World -> World -> Prop) (m : M A) : Prop :=
  forall w r w', m w = (r, w') -> R w w'.

(** The exceptions a computation can raise all satisfy [P]. *)
Definition raises_only {A} (P : exn -> Prop) (m : M A) : Prop :=
  forall w e w', m w = (Raise e, w') -> P e.

Definition not_missing_file (e : exn) : Prop :=
  match e with
  | FileNotFoundError _ => False
  | _ => True
  end.


(** ** Text lemmas: what [split] and [strip] return *)

Import PyStr.

(** The whitespace of [isspace], listed. *)
Lemma isspace_spec (c : N) :
  isspace c = true
  <-> c ∈ [9; 10; 11; 12; 13; 28; 29; 30; 31; 32; 133; 160; 5760;
           8192; 8193; 8194; 8195; 8196; 8197; 8198; 8199; 8200; 8201; 8202;
           8232; 8233; 8239; 8287; 12288]%N.
Proof.
  unfold isspace.
  rewrite !orb_true_iff, !andb_true_iff, !N.leb_le, !N.eqb_eq.
  rewrite !elem_of_cons, elem_of_nil. lia.
Qed.

Lemma split_nonempty (sep : N) (s : unicode) : split sep s <> [].
Proof.
  destruct s as [|c s]; simpl; [discriminate|].
  destruct (c =? sep)%N; [discriminate|].
  destruct (split sep s); discriminate.
Qed.

Lemma join_cons (sep : N) (c : N) (piece : unicode) (pieces : list unicode) :
  join sep ((c :: piece) :: pieces) = c :: join sep (piece :: pieces).
Proof. destruct pieces; reflexivity. Qed.

(** Joining the pieces with the separator gives the text back. *)
Lemma join_split (sep : N) (s : unicode) : join sep (split sep s) = s.
Proof.
  induction s as [|c s IH]; [reflexivity|].
  simpl. destruct (N.eqb_spec c sep) as [->|Hne].
  - pose proof (split_nonempty sep s) as Hne.
    destruct (split sep s) as [|p ps]; [contradiction|].
    change (sep :: join sep (p :: ps) = sep :: s). now rewrite IH.
  - pose proof (split_nonempty sep s) as Hnil.
    destruct (split sep s) as [|p ps]; [contradiction|].
    rewrite join_cons. now rewrite IH.
Qed.

(** No piece contains the separator. *)
Lemma split_pieces_free (sep : N) (s : unicode) :
  Forall (fun piece => contains sep piece = false) (split sep s).
Proof.
  induction s as [|c s IH]; simpl.
  - repeat constructor.
  - destruct (c =? sep)%N eqn:E.
    + constructor; [reflexivity|exact IH].
    + destruct (split sep s) as [|p ps]; simpl.
      * repeat constructor. simpl. now rewrite E.
      * inversion IH; subst. constructor; [|assumption].
        simpl. rewrite E. assumption.
Qed.

Lemma lstrip_spec (s : unicode) :
  exists l, s = l ++ lstrip s /\ all_space l = true
            /\ starts_with_space (lstrip s) = false.
Proof.
  induction s as [|c s (l & Hs & Hl & Hh)]; simpl.
  - exists []. auto.
  - destruct (isspace c) eqn:E.
    + exists (c :: l). simpl. rewrite E, Hl.
      split; [change (c :: s = c :: (l ++ lstrip s)); f_equal; exact Hs|auto].
    + exists []. simpl. auto.
Qed.

Lemma rstrip_spec (s : unicode) :
  exists r, s = rstrip s ++ r /\ all_space r = true
            /\ ends_with_space (rstrip s) = false.
Proof.
  induction s as [|c s (r & Hs & Hr & He)]; simpl.
  - exists []. auto.
  - destruct (rstrip s) as [|d t] eqn:Et.
    + destruct (isspace c) eqn:E.
      * exists (c :: r). simpl. rewrite E, Hr.
        simpl in Hs. subst s. auto.
      * exists r. simpl in Hs. subst s. simpl. auto.
    + exists r. split; [|split; [assumption|exact He]].
      change (c :: s = c :: ((d :: t) ++ r)). f_equal. exact Hs.
Qed.

Lemma rstrip_keeps_head (s : unicode) :
  starts_with_space s = false -> starts_with_space (rstrip s) = false.
Proof.
  destruct s as [|c s]; simpl; [auto|]. intros E.
  destruct (rstrip s); [rewrite E|]; auto.
Qed.

(** [strip] removes a run of whitespace at each end, and nothing else;
    what is left neither starts nor ends with whitespace. *)
Lemma strip_spec (s : unicode) :
  exists l r, s = l ++ strip s ++ r
              /\ all_space l = true /\ all_space r = true
              /\ starts_with_space (strip s) = false
              /\ ends_with_space (strip s) = false.
Proof.
  destruct (lstrip_spec s) as (l & Hs & Hl & Hh).
  destruct (rstrip_spec (lstrip s)) as (r & Hs' & Hr & He).
  exists l, r. unfold strip. rewrite <- Hs'.
  repeat split; auto using rstrip_keeps_head.
Qed.

(** ** The monad and the primitive operations *)

Lemma World_eq (w w' : World) :
  committed w = committed w' -> current w = current w' ->
  authors_seq w = authors_seq w' -> books_seq w = books_seq w' ->
  cursor w = cursor w' -> trace w = trace w' -> w = w'.
Proof. destruct w, w'. cbn. congruence. Qed.

Lemma bind_inv {A B} (m : M A) (k : A -> M B) (w : World) (r : result B) (w' : World) :
  bind m k w = (r, w') ->
  (exists a w1, m w = (Ok a, w1) /\ k a w1 = (r, w'))
  \/ (exists e, m w = (Raise e, w') /\ r = Raise e).
Proof.
  unfold bind. destruct (m w) as [[a|e] w1]; intros H.
  - left. eauto.
  - right. inversion H; subst. eauto.
Qed.

Lemma bind_Ok_inv {A B} (m : M A) (k : A -> M B) (w : World) (b : B) (w' : World) :
  bind m k w = (Ok b, w') ->
  exists a w1, m w = (Ok a, w1) /\ k a w1 = (Ok b, w').
Proof.
  intros H. apply bind_inv in H as [H|(e & _ & H)]; [exact H|discriminate].
Qed.

Lemma bind_Ok {A B} (m : M A) (k : A -> M B) (w w1 : World) (a : A) :
  m w = (Ok a, w1) -> bind m k w = k a w1.
Proof. unfold bind. now intros ->. Qed.

Lemma bind_Raise {A B} (m : M A) (k : A -> M B) (w w1 : World) (e : exn) :
  m w = (Raise e, w1) -> bind m k w = (Raise e, w1).
Proof. unfold bind. now intros ->. Qed.

Lemma respects_ret {A} (R : World -> World -> Prop) `{!Reflexive R} (a : A) :
  respects R (ret a).
Proof. intros w r w' H. inversion H; subst. reflexivity. Qed.

Lemma respects_raise {A} (R : World -> World -> Prop) `{!Reflexive R} (e : exn) :
  respects R (@raise A e).
Proof. intros w r w' H. inversion H; subst. reflexivity. Qed.

Lemma respects_bind {A B} (R : World -> World -> Prop) `{!Transitive R}
    (m : M A) (k : A -> M B) :
  respects R m -> (forall a, respects R (k a)) -> respects R (bind m k).
Proof.
  intros Hm Hk w r w' H.
  apply bind_inv in H as [(a & w1 & H1 & H2)|(e & H1 & _)].
  - etransitivity; [eapply Hm|eapply Hk]; eassumption.
  - eapply Hm; eassumption.
Qed.

Lemma respects_getitem (R : World -> World -> Prop) `{!Reflexive R} (row : Row) (key : string) :
  respects R (getitem row key).
Proof.
  unfold getitem. destruct (row !! key); [apply respects_ret|apply respects_raise]; assumption.
Qed.

Lemma respects_subscript0 (R : World -> World -> Prop) `{!Reflexive R} (r : option Z) :
  respects R (subscript0 r).
Proof.
  destruct r; [apply respects_ret|apply respects_raise]; assumption.
Qed.

Lemma respects_split_authors (R : World -> World -> Prop) `{!Reflexive R} (field : value) :
  respects R (split_authors field).
Proof.
  destruct field; [apply respects_ret|apply respects_raise]; assumption.
Qed.

(** A relation kept by the five operations that touch the world is kept
    by the whole loader. *)
Section Respects.
Variable R : World -> World -> Prop.
Context `{!PreOrder R}.
Hypothesis R_print : forall m, respects R (print m).
Hypothesis R_execute : forall q, respects R (execute q).
Hypothesis R_fetchone : respects R fetchone.
Hypothesis R_commit : respects R commit.

Lemma respects_get_or_create_author (name : unicode) :
  respects R (get_or_create_author name).
Proof.
  unfold get_or_create_author.
  repeat first
    [ apply respects_bind; [typeclasses eauto| |intros ?]
    | apply respects_ret; typeclasses eauto
    | apply respects_subscript0; typeclasses eauto
    | apply R_print | apply R_execute | apply R_fetchone | apply R_commit
    | match goal with |- respects _ (match ?x with _ => _ end) => destruct x end ].
Qed.

Lemma respects_link_authors (b : Z) (names : list unicode) :
  respects R (link_authors b names).
Proof.
  induction names as [|n names IH]; simpl.
  - apply respects_ret; typeclasses eauto.
  - apply respects_bind; [typeclasses eauto|apply respects_get_or_create_author|intros a].
    apply respects_bind; [typeclasses eauto|apply R_execute|intros _; exact IH].
Qed.

Lemma respects_insert_book (row : Row) : respects R (insert_book row).
Proof.
  unfold insert_book.
  repeat first
    [ apply respects_bind; [typeclasses eauto| |intros ?]
    | apply respects_ret; typeclasses eauto
    | apply respects_getitem; typeclasses eauto
    | apply respects_subscript0; typeclasses eauto
    | apply R_print | apply R_execute | apply R_fetchone ].
Qed.

Lemma respects_process_row (row : Row) : respects R (process_row row).
Proof.
  unfold process_row.
  apply respects_bind; [typeclasses eauto|apply respects_insert_book|intros b].
  apply respects_bind; [typeclasses eauto|apply respects_getitem; typeclasses eauto|intros f].
  apply respects_bind; [typeclasses eauto|apply respects_split_authors; typeclasses eauto|intros ns].
  apply respects_bind; [typeclasses eauto|apply respects_link_authors|intros _; apply R_commit].
Qed.

Lemma respects_ingest (items : list csv_item) : respects R (ingest items).
Proof.
  induction items as [|[row|e] items IH]; simpl.
  - apply respects_ret; typeclasses eauto.
  - apply respects_bind; [typeclasses eauto|apply respects_process_row|intros _; exact IH].
  - apply respects_raise; typeclasses eauto.
Qed.
End Respects.

(** ** What the resolver does *)

Lemma trace_emit (e : event) (w : World) : trace (emit e w) = trace w ++ [e].
Proof. reflexivity. Qed.

(** A call that returns either found the name, and changed nothing but the
    trace and the cursor, or created the row under the next identifier and
    committed. *)
Lemma get_or_create_author_Ok (name : unicode) (w : World) (id : Z) (w' : World) :
  get_or_create_author name w = (Ok id, w') ->
  books_seq w' = books_seq w /\
  match author_lookup name (current w) with
  | Some id0 =>
      id = id0 /\ current w' = current w /\ committed w' = committed w
      /\ authors_seq w' = authors_seq w
      /\ trace w' = trace w ++ [Output (MsgGetOrCreate name); Execute (SelectAuthor name);
                                Output (MsgAuthorExists name id)]
  | None =>
      id = authors_seq w
      /\ current w' =
           {| t_authors := t_authors (current w)
                           ++ [{| authors.author_id := id; authors.name := name |}];
              t_books := t_books (current w);
              t_book_author := t_book_author (current w) |}
      /\ committed w' = current w'
      /\ authors_seq w' = authors_seq w + 1
      /\ trace w' = trace w ++ [Output (MsgGetOrCreate name); Execute (SelectAuthor name);
                                Execute (InsertAuthor name); Commit;
                                Output (MsgAuthorCreated name id)]
  end.
Proof.
  unfold get_or_create_author, author_lookup, bind, print, execute, fetchone,
    commit, subscript0, ret, raise.
  cbn.
  destruct (db_error (current w) (SelectAuthor name)); [discriminate|].
  cbn. destruct (select_author name (current w)) as [|id0 ids]; cbn.
  - destruct (db_error (current w) (InsertAuthor name)); [discriminate|]. cbn.
    destruct (commit_error _); [discriminate|]. cbn.
    intros H. inversion H; subst; clear H. cbn.
    rewrite <- !app_assoc. auto 10.
  - intros H. inversion H; subst; clear H. cbn.
    rewrite <- !app_assoc. auto 10.
Qed.

(** With a store that accepts the statements, the call returns. *)
Lemma get_or_create_author_returns (name : unicode) (w : World) :
  (forall t q, db_error t q = None) -> (forall t, commit_error t = None) ->
  exists id w', get_or_create_author name w = (Ok id, w').
Proof.
  intros Hq Hc.
  unfold get_or_create_author, bind, print, execute, fetchone,
    commit, subscript0, ret, raise.
  cbn. rewrite Hq. cbn.
  destruct (select_author name (current w)) as [|id0 ids]; cbn.
  - rewrite Hq. cbn. rewrite Hc. cbn. eauto.
  - eauto.
Qed.

(** *** Lookups by name *)

Lemma author_lookup_Some (name : unicode) (t : Tables) (id : Z) :
  author_lookup name t = Some id ->
  {| authors.author_id := id; authors.name := name |} ∈ t_authors t.
Proof.
  unfold author_lookup, select_author.
  induction (t_authors t) as [|[a n] rows IH]; [discriminate|].
  rewrite filter_cons. cbn. case_decide as E.
  - cbn. intros [= ->]. subst n. left.
  - intros H. right. auto.
Qed.

Lemma author_lookup_None (name : unicode) (t : Tables) (r : authors.row) :
  author_lookup name t = None -> r ∈ t_authors t -> authors.name r <> name.
Proof.
  unfold author_lookup, select_author.
  induction (t_authors t) as [|r0 rows IH]; [intros _ H; inversion H|].
  rewrite filter_cons. case_decide as E.
  - discriminate.
  - intros H Hin. apply elem_of_cons in Hin as [->|Hin]; auto.
Qed.

(** Rows added at the end of authors do not change what a stored name
    resolves to. *)
Lemma author_lookup_app (name : unicode) (t t' : Tables) (id : Z) :
  t_authors t `prefix_of` t_authors t' ->
  author_lookup name t = Some id -> author_lookup name t' = Some id.
Proof.
  intros [more E]. unfold author_lookup, select_author. rewrite E.
  rewrite filter_app, fmap_app.
  destruct (authors.author_id <$> filter _ (t_authors t)); [discriminate|].
  auto.
Qed.

Lemma author_lookup_new (name : unicode) (t t' : Tables) (id : Z) :
  author_lookup name t = None ->
  t_authors t' = t_authors t ++ [{| authors.author_id := id; authors.name := name |}] ->
  author_lookup name t' = Some id.
Proof.
  intros H E. unfold author_lookup, select_author in *. rewrite E.
  rewrite filter_app, fmap_app.
  destruct (authors.author_id <$> filter _ (t_authors t)); [|discriminate].
  rewrite filter_cons. cbn. case_decide; [reflexivity|contradiction].
Qed.

(** Where author_id is a key, two names with the same identifier are the
    same name. *)
Lemma author_lookup_inj (n1 n2 : unicode) (t : Tables) (id : Z) :
  NoDup (authors.author_id <$> t_authors t) ->
  author_lookup n1 t = Some id -> author_lookup n2 t = Some id -> n1 = n2.
Proof.
  intros Hk H1 H2.
  apply author_lookup_Some in H1, H2.
  induction (t_authors t) as [|r rows IH]; [inversion H1|].
  rewrite fmap_cons in Hk. apply NoDup_cons in Hk as [Hr Hk].
  apply elem_of_cons in H1 as [E1|H1], H2 as [E2|H2].
  - subst r. now inversion E2.
  - exfalso. apply Hr. subst r. apply (list_elem_of_fmap_2 authors.author_id) in H2. exact H2.
  - exfalso. apply Hr. subst r. apply (list_elem_of_fmap_2 authors.author_id) in H1. exact H1.
  - auto.
Qed.

(** After a call that returned, the name resolves to the identifier
    returned, and the row stores the name as given. *)
Lemma get_or_create_author_lookup (name : unicode) (w : World) (id : Z) (w' : World) :
  get_or_create_author name w = (Ok id, w') ->
  author_lookup name (current w') = Some id
  /\ t_authors (current w) `prefix_of` t_authors (current w').
Proof.
  intros H. apply get_or_create_author_Ok in H as [_ H].
  destruct (author_lookup name (current w)) as [id0|] eqn:E.
  - destruct H as (-> & -> & _). auto.
  - destruct H as (-> & Hc & _). rewrite Hc. cbn. split.
    + eapply author_lookup_new; [exact E|reflexivity].
    + eexists. reflexivity.
Qed.

(** ** The conflict-ignoring insert *)

Lemma linked_app (b a : Z) (rows rows' : list book_author.row) :
  linked b a (rows ++ rows') = linked b a rows || linked b a rows'.
Proof. unfold linked. apply existsb_app. Qed.

Lemma linked_below (b a : Z) (rows : list book_author.row) :
  Forall (fun r => book_author.book_id r < b) rows -> linked b a rows = false.
Proof.
  induction 1 as [|r rows Hr _ IH]; [reflexivity|].
  unfold linked in *. cbn. rewrite IH.
  destruct (Z.eqb_spec (book_author.book_id r) b); [lia|reflexivity].
Qed.

Lemma linked_count (b a : Z) (rows : list book_author.row) :
  linked b a rows = negb (Nat.eqb (count_pair b a rows) 0).
Proof.
  unfold linked, count_pair.
  induction rows as [|r rows IH]; [reflexivity|].
  rewrite filter_cons. cbn. case_decide as E.
  - destruct E as [-> ->]. now rewrite !Z.eqb_refl.
  - rewrite IH.
    destruct (Z.eqb_spec (book_author.book_id r) b), (Z.eqb_spec (book_author.author_id r) a);
      cbn; tauto.
Qed.

Lemma count_pair_app (b a : Z) (rows rows' : list book_author.row) :
  count_pair b a (rows ++ rows') = (count_pair b a rows + count_pair b a rows')%nat.
Proof. unfold count_pair. now rewrite filter_app, length_app. Qed.

(** An insert that returned added the pair at the end, or, the pair being
    there already, nothing. *)
Lemma execute_link_Ok (b a : Z) (w w' : World) :
  execute (InsertBookAuthor b a) w = (Ok tt, w') ->
  t_authors (current w') = t_authors (current w)
  /\ t_books (current w') = t_books (current w)
  /\ t_book_author (current w') =
       t_book_author (current w)
       ++ (if linked b a (t_book_author (current w)) then []
           else [{| book_author.book_id := b; book_author.author_id := a |}])
  /\ committed w' = committed w
  /\ authors_seq w' = authors_seq w /\ books_seq w' = books_seq w
  /\ trace w' = trace w ++ [Execute (InsertBookAuthor b a)].
Proof.
  unfold execute. cbn.
  destruct (db_error (current w) (InsertBookAuthor b a)); [discriminate|].
  intros H. inversion H; subst; clear H. cbn.
  destruct (linked b a (t_book_author (current w))); cbn; rewrite ?app_nil_r; auto 10.
Qed.

(** ** The author loop *)

Lemma resolutions_app (tr tr' : list event) :
  resolutions (tr ++ tr') = resolutions tr ++ resolutions tr'.
Proof.
  induction tr as [|e tr IH]; [reflexivity|].
  destruct e as [[]| | | | | |]; cbn; now rewrite ?IH.
Qed.

Lemma executed_app (tr tr' : list event) :
  executed (tr ++ tr') = executed tr ++ executed tr'.
Proof.
  induction tr as [|e tr IH]; [reflexivity|].
  destruct e; cbn; now rewrite ?IH.
Qed.

(** What the loop over the names of one row does when it ends normally:
    books are not touched, authors and book_author only get rows at the
    end, the new book_author rows all belong to the book, the resolver is
    called once per name, in order, and there is one association insert
    per name, each with the book's identifier. *)
Lemma link_authors_Ok (b : Z) (names : list unicode) (w w' : World) :
  link_authors b names w = (Ok tt, w') ->
  t_books (current w') = t_books (current w)
  /\ books_seq w' = books_seq w
  /\ t_authors (current w) `prefix_of` t_authors (current w')
  /\ (exists added,
         t_book_author (current w') = t_book_author (current w) ++ added
         /\ Forall (fun r => book_author.book_id r = b) added)
  /\ (exists delta,
         trace w' = trace w ++ delta
         /\ resolutions delta = names
         /\ association_books (executed delta) = replicate (length names) b).
Proof.
  revert w. induction names as [|n names IH]; intros w H.
  - inversion H; subst. repeat split; [reflexivity| |].
    + exists []. now rewrite app_nil_r.
    + exists []. now rewrite app_nil_r.
  - cbn in H.
    apply bind_Ok_inv in H as (a & w1 & Hg & H).
    apply bind_Ok_inv in H as ([] & w2 & Hx & H).
    apply IH in H as (Hb & Hs & Ha & (added & Hl & Hadded) & (delta & Ht & Hr & Hq)).
    pose proof (get_or_create_author_lookup _ _ _ _ Hg) as [_ Hpre].
    apply get_or_create_author_Ok in Hg as [Hs1 Hg].
    apply execute_link_Ok in Hx as (Ha2 & Hb2 & Hl2 & _ & _ & Hs2 & Ht2).
    assert (Hb1 : t_books (current w1) = t_books (current w)
                  /\ t_book_author (current w1) = t_book_author (current w)).
    { destruct (author_lookup n (current w)).
      - destruct Hg as (_ & -> & _). auto.
      - destruct Hg as (_ & -> & _). auto. }
    destruct Hb1 as [Hb1 Hl1].
    repeat split.
    + congruence.
    + congruence.
    + etransitivity; [exact Hpre|]. rewrite <- Ha2. exact Ha.
    + eexists. rewrite Hl, Hl2, Hl1, <- app_assoc. split; [reflexivity|].
      apply Forall_app. split; [|exact Hadded].
      destruct (linked b a (t_book_author (current w)));
        [constructor|constructor; [reflexivity|constructor]].
    + destruct (author_lookup n (current w)).
      * destruct Hg as (_ & _ & _ & _ & Ht1).
        eexists. rewrite Ht, Ht2, Ht1, <- !app_assoc. split; [reflexivity|].
        cbn. rewrite Hr, Hq. split; reflexivity.
      * destruct Hg as (_ & _ & _ & _ & Ht1).
        eexists. rewrite Ht, Ht2, Ht1, <- !app_assoc. split; [reflexivity|].
        cbn. rewrite Hr, Hq. split; reflexivity.
Qed.

Lemma link_authors_returns (b : Z) (names : list unicode) (w : World) :
  (forall t q, db_error t q = None) -> (forall t, commit_error t = None) ->
  exists w', link_authors b names w = (Ok tt, w').
Proof.
  intros Hq Hc. revert w. induction names as [|n names IH]; intros w.
  - eexists. reflexivity.
  - destruct (get_or_create_author_returns n w Hq Hc) as (a & w1 & Hg).
    cbn. rewrite (bind_Ok _ _ _ _ _ Hg).
    unfold execute at 1. unfold bind at 1. cbn. rewrite Hq. apply IH.
Qed.

(** ** The schema constraints are kept *)

Lemma get_or_create_author_wf (name : unicode) (w : World) (id : Z) (w' : World) :
  wf w -> get_or_create_author name w = (Ok id, w') ->
  wf w' /\ t_book_author (current w') = t_book_author (current w).
Proof.
  intros [Hk Hs Hl] H. apply get_or_create_author_Ok in H as [Hb H].
  destruct (author_lookup name (current w)).
  - destruct H as (_ & Hc & _ & Ha & _). split; [|now rewrite Hc].
    split; rewrite ?Hc, ?Ha, ?Hb; assumption.
  - destruct H as (-> & Hc & _ & Ha & _). split; [|now rewrite Hc].
    split; rewrite Hc, ?Ha, ?Hb; cbn; [| |assumption].
    + rewrite fmap_app. apply NoDup_app. split; [exact Hk|]. split.
      * intros a Ha1 Ha2. apply list_elem_of_singleton in Ha2. subst a.
        apply list_elem_of_fmap in Ha1 as (r & E & Hr).
        rewrite Forall_forall in Hs. specialize (Hs r Hr). cbn in E. lia.
      * apply NoDup_singleton.
    + apply Forall_app. split.
      * eapply Forall_impl; [exact Hs|]. cbn. intros; lia.
      * constructor; [cbn; lia|constructor].
Qed.

Lemma execute_link_wf (b a : Z) (w w' : World) :
  wf w -> b < books_seq w -> execute (InsertBookAuthor b a) w = (Ok tt, w') -> wf w'.
Proof.
  intros [Hk Hs Hl] Hb H.
  apply execute_link_Ok in H as (Ha' & _ & Hl' & _ & Hsa & Hsb & _).
  split; rewrite ?Ha', ?Hl', ?Hsa, ?Hsb; try assumption.
  apply Forall_app. split; [assumption|].
  destruct (linked b a _); [constructor|constructor; [exact Hb|constructor]].
Qed.

(** ** Counting the associations of one row *)

(** The loop adds one book_author row for each name not linked before. *)
Lemma link_authors_count (b : Z) (names : list unicode) :
  forall (seen : list unicode) (w w' : World),
    wf w -> b < books_seq w ->
    (forall n, n ∈ seen ->
       exists a, author_lookup n (current w) = Some a
                 /\ linked b a (t_book_author (current w)) = true) ->
    (forall a, linked b a (t_book_author (current w)) = true ->
       exists n, n ∈ seen /\ author_lookup n (current w) = Some a) ->
    link_authors b names w = (Ok tt, w') ->
    wf w'
    /\ length (t_book_author (current w'))
       = (length (t_book_author (current w)) + count_new seen names)%nat.
Proof.
  induction names as [|n names IH]; intros seen w w' Hwf Hb I1 I2 H.
  - inversion H; subst. cbn. split; [assumption|lia].
  - cbn in H.
    apply bind_Ok_inv in H as (a & w1 & Hg & H).
    apply bind_Ok_inv in H as ([] & w2 & Hx & H).
    destruct (get_or_create_author_wf _ _ _ _ Hwf Hg) as [Hwf1 Hl1].
    destruct (get_or_create_author_lookup _ _ _ _ Hg) as [Hlk Hpre].
    pose proof (get_or_create_author_Ok _ _ _ _ Hg) as [Hsb1 _].
    assert (Hb1 : b < books_seq w1) by (rewrite Hsb1; exact Hb).
    pose proof (execute_link_wf _ _ _ _ Hwf1 Hb1 Hx) as Hwf2.
    apply execute_link_Ok in Hx as (Ha2 & _ & Hl2 & _ & _ & Hsb2 & _).
    (* the pair is linked already exactly when the name was seen *)
    assert (Hseen : linked b a (t_book_author (current w1)) = true <-> n ∈ seen).
    { rewrite Hl1. split.
      - intros Hlinked. destruct (I2 _ Hlinked) as (n' & Hn' & Hlk').
        apply (author_lookup_app _ _ (current w1)) in Hlk'; [|exact Hpre].
        rewrite (author_lookup_inj n n' (current w1) a); auto.
        apply Hwf1.
      - intros Hn. destruct (I1 _ Hn) as (a' & Hlk' & Hlinked).
        apply (author_lookup_app _ _ (current w1)) in Hlk'; [|exact Hpre].
        congruence. }
    assert (Hsame : forall m x, author_lookup m (current w2) = x <-> author_lookup m (current w1) = x).
    { intros m x. unfold author_lookup, select_author. now rewrite Ha2. }
    apply (IH (n :: seen)) in H; [| assumption | lia | |].
    + destruct H as [Hwf' Hlen]. split; [assumption|].
      rewrite Hlen, Hl2, length_app, Hl1. cbn [count_new].
      case_decide as Hn.
      * apply Hseen in Hn. rewrite Hl1 in Hn. rewrite Hn. cbn. lia.
      * destruct (linked b a (t_book_author (current w))) eqn:E.
        -- exfalso. apply Hn, Hseen. now rewrite Hl1.
        -- cbn. lia.
    + intros m Hm. apply elem_of_cons in Hm as [->|Hm].
      * exists a. split; [now apply Hsame|].
        rewrite Hl2, linked_app.
        destruct (linked b a (t_book_author (current w1))); [reflexivity|].
        cbn. now rewrite !Z.eqb_refl.
      * destruct (I1 _ Hm) as (a' & Hlk' & Hlinked). exists a'. split.
        -- apply Hsame. eapply author_lookup_app; eassumption.
        -- rewrite Hl2, linked_app, Hl1, Hlinked. reflexivity.
    + intros a' Hlinked. rewrite Hl2, linked_app in Hlinked.
      apply orb_true_iff in Hlinked as [Hlinked|Hnew].
      * rewrite Hl1 in Hlinked. destruct (I2 _ Hlinked) as (n' & Hn' & Hlk').
        exists n'. split; [now right|].
        apply Hsame. eapply author_lookup_app; eassumption.
      * exists n. split; [now left|]. apply Hsame.
        destruct (linked b a (t_book_author (current w1))); [discriminate|].
        cbn in Hnew. rewrite orb_false_r in Hnew.
        apply andb_true_iff in Hnew as [_ Hnew]. apply Z.eqb_eq in Hnew.
        now subst a'.
Qed.

Lemma size_add_new (n : unicode) (X : gset unicode) :
  n ∉ X -> size ({[n]} ∪ X) = S (size X).
Proof.
  intros H. rewrite size_union.
  - rewrite size_singleton. reflexivity.
  - apply disjoint_singleton_l. exact H.
Qed.

(** [count_new] counts the distinct names that were not seen. *)
Lemma count_new_size (names seen : list unicode) :
  count_new seen names
  = size ((list_to_set names : gset unicode) ∖ list_to_set seen).
Proof.
  revert seen. induction names as [|n names IH]; intros seen; cbn [count_new].
  - rewrite list_to_set_nil.
    replace (∅ ∖ list_to_set seen : gset unicode) with (∅ : gset unicode)
      by (apply set_eq; intros x; rewrite elem_of_difference, elem_of_empty; tauto).
    now rewrite size_empty.
  - rewrite IH, !list_to_set_cons.
    case_decide as Hn; rewrite <- (elem_of_list_to_set (C := gset unicode)) in Hn.
    + cbn. f_equal. apply set_eq. intros x.
      rewrite !elem_of_difference, !elem_of_union, !elem_of_singleton.
      split; [tauto|]. intros [[->|Hx] Hs]; [exfalso; exact (Hs Hn)|].
      split; [exact Hx|intros [->|H]; [exact (Hs Hn)|exact (Hs H)]].
    + replace (({[n]} ∪ list_to_set names) ∖ list_to_set seen : gset unicode)
        with ({[n]} ∪ (list_to_set names ∖ ({[n]} ∪ list_to_set seen)) : gset unicode).
      * rewrite size_add_new; [reflexivity|].
        rewrite elem_of_difference, elem_of_union, elem_of_singleton. tauto.
      * apply set_eq. intros x.
        rewrite !elem_of_union, !elem_of_difference, !elem_of_union, !elem_of_singleton.
        destruct (decide (x = n)) as [->|Hx]; tauto.
Qed.

Lemma count_new_distinct (names : list unicode) :
  count_new [] names = length (remove_dups names).
Proof.
  rewrite count_new_size, list_to_set_nil.
  rewrite <- (size_list_to_set (C := gset unicode) (remove_dups names))
    by apply NoDup_remove_dups.
  f_equal. apply set_eq. intros x.
  rewrite elem_of_difference, !elem_of_list_to_set, elem_of_remove_dups.
  split; [intros [H _]; exact H|intros H; split; [exact H|apply not_elem_of_empty]].
Qed.

(** ** One row *)

Lemma getitem_Ok (row : Row) (key : string) (w : World) (v : value) (w' : World) :
  getitem row key w = (Ok v, w') -> row !! key = Some v /\ w' = w.
Proof.
  unfold getitem. destruct (row !! key); intros H; inversion H; auto.
Qed.

Lemma print_Ok (m : message) (w : World) (r : result unit) (w' : World) :
  print m w = (r, w') -> r = Ok tt /\ w' = emit (Output m) w.
Proof. intros H. inversion H; auto. Qed.

Lemma execute_Ok (q : statement) (w w' : World) :
  execute q w = (Ok tt, w') ->
  db_error (current w) q = None /\ w' = run_statement q (emit (Execute q) w).
Proof.
  unfold execute. cbn. destruct (db_error (current w) q); intros H; inversion H; auto.
Qed.

Lemma commit_Ok (w w' : World) :
  commit w = (Ok tt, w') ->
  commit_error (current w) = None /\ w' = set_committed (current w) (emit Commit w).
Proof.
  unfold commit. cbn. destruct (commit_error (current w)); intros H; inversion H; auto.
Qed.

(** The book insert: the seven fields of the row, in the order of the
    column list, under the next book_id, which is what the loop keeps. *)
Lemma insert_book_Ok (row : Row) (w : World) (id : Z) (w' : World) :
  insert_book row w = (Ok id, w') ->
  exists p1 p2 p3 p4 p5 p6 p7,
    row !! "isbn13" = Some p1
    /\ row !! "original_publication_year" = Some p2
    /\ row !! "title" = Some p3
    /\ row !! "average_rating" = Some p4
    /\ row !! "ratings_count" = Some p5
    /\ row !! "image_url" = Some p6
    /\ row !! "small_image_url" = Some p7
    /\ id = books_seq w
    /\ current w' =
         {| t_authors := t_authors (current w);
            t_books := t_books (current w)
                       ++ [{| books.book_id := id;
                              books.isbn13 := p1;
                              books.publication_year := p2;
                              books.title := p3;
                              books.rating_avg := p4;
                              books.rating_count := p5;
                              books.image_url := p6;
                              books.image_small_url := p7 |}];
            t_book_author := t_book_author (current w) |}
    /\ committed w' = committed w
    /\ authors_seq w' = authors_seq w
    /\ books_seq w' = id + 1
    /\ trace w' = trace w ++ [Output (MsgInsertingBook p3 p1);
                              Execute (InsertBook books_columns [p1; p2; p3; p4; p5; p6; p7]);
                              Output (MsgInsertedBook id)].
Proof.
  unfold insert_book. intros H.
  apply bind_Ok_inv in H as (t & w1 & G & H). apply getitem_Ok in G as [Et ->].
  apply bind_Ok_inv in H as (i & w1 & G & H). apply getitem_Ok in G as [Ei ->].
  apply bind_Ok_inv in H as ([] & w1 & G & H). apply print_Ok in G as [_ ->].
  apply bind_Ok_inv in H as (p1 & w1 & G & H). apply getitem_Ok in G as [E1 ->].
  apply bind_Ok_inv in H as (p2 & w1 & G & H). apply getitem_Ok in G as [E2 ->].
  apply bind_Ok_inv in H as (p3 & w1 & G & H). apply getitem_Ok in G as [E3 ->].
  apply bind_Ok_inv in H as (p4 & w1 & G & H). apply getitem_Ok in G as [E4 ->].
  apply bind_Ok_inv in H as (p5 & w1 & G & H). apply getitem_Ok in G as [E5 ->].
  apply bind_Ok_inv in H as (p6 & w1 & G & H). apply getitem_Ok in G as [E6 ->].
  apply bind_Ok_inv in H as (p7 & w1 & G & H). apply getitem_Ok in G as [E7 ->].
  apply bind_Ok_inv in H as ([] & w1 & G & H). apply execute_Ok in G as [_ ->].
  rewrite Et in E3. rewrite Ei in E1. inversion E3; inversion E1; subst t i.
  exists p1, p2, p3, p4, p5, p6, p7.
  inversion H; subst; clear H. cbn.
  rewrite <- !app_assoc. auto 20.
Qed.

Lemma insert_book_returns (row : Row) (w : World) :
  (forall t q, db_error t q = None) ->
  Forall (fun key => is_Some (row !! key)) csv_columns ->
  exists w', insert_book row w = (Ok (books_seq w), w').
Proof.
  intros Hq Hcols. unfold csv_columns in Hcols.
  repeat match goal with
         | H : Forall _ (_ :: _) |- _ => apply Forall_cons in H as [[? ?] H]
         end.
  unfold insert_book, getitem, bind, print, execute, fetchone, subscript0, ret.
  repeat match goal with E : _ !! _ = Some _ |- _ => rewrite E; clear E end.
  cbn. rewrite Hq. cbn. eauto.
Qed.

(** A row that is processed to its end went through the book insert, the
    author loop over the split and trimmed field, and the commit. *)
Lemma process_row_Ok (row : Row) (w w' : World) :
  process_row row w = (Ok tt, w') ->
  exists w1 s w2,
    insert_book row w = (Ok (books_seq w), w1)
    /\ row !! "authors" = Some (Some s)
    /\ link_authors (books_seq w) (PyStr.strip <$> PyStr.split (ord ",") s) w1 = (Ok tt, w2)
    /\ commit_error (current w2) = None
    /\ w' = set_committed (current w2) (emit Commit w2).
Proof.
  unfold process_row. intros H.
  apply bind_Ok_inv in H as (b & w1 & Hb & H).
  pose proof (insert_book_Ok _ _ _ _ Hb) as (? & ? & ? & ? & ? & ? & ? & _ & _ & _ & _ & _ & _ & _ & -> & _).
  apply bind_Ok_inv in H as (f & w1' & G & H). apply getitem_Ok in G as [Ef ->].
  apply bind_Ok_inv in H as (names & w1' & G & H).
  destruct f as [s|]; [|discriminate]. inversion G; subst; clear G.
  apply bind_Ok_inv in H as ([] & w2 & Hl & H).
  apply commit_Ok in H as [Hc ->].
  eauto 10.
Qed.

Lemma process_row_returns (row : Row) (w : World) :
  (forall t q, db_error t q = None) -> (forall t, commit_error t = None) ->
  readable row ->
  exists w', process_row row w = (Ok tt, w').
Proof.
  intros Hq Hc [Hcols [s Hs]].
  destruct (insert_book_returns row w Hq Hcols) as (w1 & Hb).
  destruct (link_authors_returns (books_seq w) (PyStr.strip <$> PyStr.split (ord ",") s) w1 Hq Hc)
    as (w2 & Hl).
  unfold process_row. rewrite (bind_Ok _ _ _ _ _ Hb).
  unfold getitem. rewrite Hs. unfold bind at 1, ret at 1. cbn [split_authors].
  unfold bind at 1, ret at 1. rewrite (bind_Ok _ _ _ _ _ Hl).
  unfold commit. cbn. rewrite Hc. eauto.
Qed.

(** One row processed to its end, from tables that meet the constraints:
    one more book, one more association for each distinct name of the
    row, everything committed, constraints kept. *)
Lemma process_row_effect (row : Row) (w w' : World) :
  wf w -> process_row row w = (Ok tt, w') ->
  wf w'
  /\ committed w' = current w'
  /\ length (t_books (current w')) = S (length (t_books (current w)))
  /\ length (t_book_author (current w'))
     = (length (t_book_author (current w)) + length (remove_dups (row_authors row)))%nat.
Proof.
  intros Hwf H.
  apply process_row_Ok in H as (w1 & s & w2 & Hb & Hs & Hl & _ & ->).
  apply insert_book_Ok in Hb
    as (? & ? & ? & ? & ? & ? & ? & _ & _ & _ & _ & _ & _ & _ & _ & Hc1 & _ & Hsa1 & Hsb1 & _).
  assert (Hwf1 : wf w1).
  { destruct Hwf as [Hk Hsq Hlk]. split; rewrite Hc1, ?Hsa1, ?Hsb1; cbn; try assumption.
    eapply Forall_impl; [exact Hlk|]. cbn. intros; lia. }
  pose proof (link_authors_Ok _ _ _ _ Hl) as (Hbk & _).
  apply (link_authors_count _ _ []) in Hl; [|assumption|lia| |].
  - destruct Hl as [Hwf2 Hlen]. cbn.
    split; [destruct Hwf2; split; assumption|]. split; [reflexivity|].
    rewrite Hbk, Hlen, Hc1. cbn. rewrite length_app. cbn.
    unfold row_authors. rewrite Hs, count_new_distinct. lia.
  - intros n Hn. inversion Hn.
  - intros a Hlinked. rewrite Hc1 in Hlinked. cbn [t_book_author] in Hlinked.
    rewrite linked_below in Hlinked; [discriminate|]. apply Hwf.
Qed.

(** ** Durability: commits only ever add rows *)

#[local] Instance tables_le_preorder : PreOrder tables_le.
Proof.
  split.
  - intros t. repeat split; reflexivity.
  - intros t1 t2 t3 (?&?&?) (?&?&?). repeat split; etransitivity; eassumption.
Qed.

#[local] Instance keeps_preorder : PreOrder keeps.
Proof.
  split.
  - intros w Hw. split; [assumption|split; reflexivity].
  - intros w1 w2 w3 H12 H23 Hw.
    destruct (H12 Hw) as (Hw2 & ? & ?). destruct (H23 Hw2) as (Hw3 & ? & ?).
    split; [assumption|split; etransitivity; eassumption].
Qed.

Lemma run_statement_grows (q : statement) (w : World) :
  committed (run_statement q w) = committed w
  /\ tables_le (current w) (current (run_statement q w)).
Proof.
  destruct q as [n|n|cols ps|b a]; cbn.
  - split; reflexivity.
  - split; [reflexivity|]. unfold tables_le. cbn.
    split; [now apply prefix_app_r|split; reflexivity].
  - split; [reflexivity|]. unfold tables_le. cbn.
    split; [reflexivity|split; [now apply prefix_app_r|reflexivity]].
  - destruct (linked b a _); cbn; (split; [reflexivity|]); [reflexivity|].
    unfold tables_le. cbn.
    split; [reflexivity|split; [reflexivity|now apply prefix_app_r]].
Qed.

Lemma keeps_print (m : message) : respects keeps (print m).
Proof. intros w r w' H. inversion H; subst. intros Hw. split; [exact Hw|split; reflexivity]. Qed.

Lemma keeps_fetchone : respects keeps fetchone.
Proof.
  intros w r w' H. unfold fetchone in H.
  destruct (cursor w); inversion H; subst; intros Hw;
    (split; [exact Hw|split; reflexivity]).
Qed.

Lemma keeps_execute (q : statement) : respects keeps (execute q).
Proof.
  intros w r w' H. unfold execute in H. cbn in H.
  destruct (db_error (current w) q).
  - inversion H; subst. intros Hw. split; [exact Hw|split; reflexivity].
  - inversion H; subst. intros Hw.
    destruct (run_statement_grows q (emit (Execute q) w)) as [Hc Hg].
    unfold settled. rewrite Hc. cbn in *.
    split; [etransitivity; [exact Hw|exact Hg]|split; [reflexivity|exact Hg]].
Qed.

Lemma keeps_commit : respects keeps commit.
Proof.
  intros w r w' H. unfold commit in H. cbn in H.
  destruct (commit_error (current w)); inversion H; subst; intros Hw.
  - split; [exact Hw|split; reflexivity].
  - unfold settled. cbn. split; [reflexivity|split; [exact Hw|reflexivity]].
Qed.

(** Whatever the loop does from a settled world, and however it ends,
    what was durable stays durable. *)
Lemma keeps_ingest (items : list csv_item) : respects keeps (ingest items).
Proof.
  apply respects_ingest;
    [typeclasses eauto|apply keeps_print|apply keeps_execute|apply keeps_fetchone|apply keeps_commit].
Qed.

Lemma keeps_process_row (row : Row) : respects keeps (process_row row).
Proof.
  apply respects_process_row;
    [typeclasses eauto|apply keeps_print|apply keeps_execute|apply keeps_fetchone|apply keeps_commit].
Qed.

Lemma keeps_link_authors (b : Z) (names : list unicode) : respects keeps (link_authors b names).
Proof.
  apply respects_link_authors;
    [typeclasses eauto|apply keeps_print|apply keeps_execute|apply keeps_fetchone|apply keeps_commit].
Qed.

Lemma settled_eq (w : World) : committed w = current w -> settled w.
Proof. unfold settled. intros ->. reflexivity. Qed.

(** ** Which exceptions the loop body can raise *)

Lemma raises_only_bind {A B} (P : exn -> Prop) (m : M A) (k : A -> M B) :
  raises_only P m -> (forall a, raises_only P (k a)) -> raises_only P (bind m k).
Proof.
  intros Hm Hk w e w' H.
  apply bind_inv in H as [(a & w1 & _ & H)|(e' & H & E)].
  - eapply Hk; eassumption.
  - inversion E; subst. eapply Hm; eassumption.
Qed.

(** Nothing in the loop body raises FileNotFoundError. *)
Lemma process_row_raises (row : Row) : raises_only not_missing_file (process_row row).
Proof.
  assert (Hprint : forall m, raises_only not_missing_file (print m))
    by (intros m w e w' H; inversion H).
  assert (Hret : forall A (a : A), raises_only not_missing_file (ret a))
    by (intros A a w e w' H; inversion H).
  assert (Hexec : forall q, raises_only not_missing_file (execute q)).
  { intros q w e w' H. unfold execute in H. cbn in H.
    destruct (db_error (current w) q); inversion H; exact I. }
  assert (Hcommit : raises_only not_missing_file commit).
  { intros w e w' H. unfold commit in H. cbn in H.
    destruct (commit_error (current w)); inversion H; exact I. }
  assert (Hfetch : raises_only not_missing_file fetchone).
  { intros w e w' H. unfold fetchone in H. destruct (cursor w); inversion H. }
  assert (Hsub : forall r, raises_only not_missing_file (subscript0 r)).
  { intros [id|] w e w' H; inversion H; exact I. }
  assert (Hget : forall key, raises_only not_missing_file (getitem row key)).
  { intros key w e w' H. unfold getitem in H. destruct (row !! key); inversion H; exact I. }
  assert (Hauthor : forall n, raises_only not_missing_file (get_or_create_author n)).
  { intros n. unfold get_or_create_author.
    repeat first
      [ apply raises_only_bind; [|intros ?]
      | apply Hprint | apply Hexec | apply Hfetch | apply Hcommit | apply Hsub | apply Hret
      | match goal with |- raises_only _ (match ?x with _ => _ end) => destruct x end ]. }
  assert (Hlink : forall b names, raises_only not_missing_file (link_authors b names)).
  { intros b names. induction names as [|n names IH]; cbn; [apply Hret|].
    apply raises_only_bind; [apply Hauthor|intros a].
    apply raises_only_bind; [apply Hexec|intros _; exact IH]. }
  assert (Hsplit : forall field, raises_only not_missing_file (split_authors field)).
  { intros [s|] w e w' H; inversion H; exact I. }
  unfold process_row, insert_book.
  repeat first
    [ apply raises_only_bind; [|intros ?]
    | apply Hprint | apply Hexec | apply Hfetch | apply Hcommit | apply Hsub | apply Hret
    | apply Hget | apply Hlink | apply Hsplit ].
Qed.

(** ** The connection loop *)

Lemma emits_emits (es es' : list event) (w : World) :
  emits es' (emits es w) = emits (es ++ es') w.
Proof. unfold emits. cbn. now rewrite app_assoc. Qed.

Lemma emit_emits (e : event) (w : World) : emit e w = emits [e] w.
Proof. reflexivity. Qed.

Lemma sleeps_app (tr tr' : list event) : sleeps (tr ++ tr') = sleeps tr ++ sleeps tr'.
Proof.
  induction tr as [|e tr IH]; [reflexivity|].
  destruct e; cbn; now rewrite ?IH.
Qed.

Lemma executed_retried (delay : Z) (server : nat -> attempt_result) (from k : nat) :
  Forall (fun e => touches_store e = false)
         (flat_map (fun j => retried delay (refusal (server j))) (seq from k)).
Proof.
  revert from. induction k as [|k IH]; intros from; cbn; [constructor|].
  repeat (constructor; [reflexivity|]). apply IH.
Qed.

(** Every retried attempt is followed by one sleep of the fixed delay. *)
Lemma sleeps_retried (delay : Z) (server : nat -> attempt_result) (from k : nat) :
  sleeps (flat_map (fun j => retried delay (refusal (server j))) (seq from k))
  = replicate k delay.
Proof.
  revert from. induction k as [|k IH]; intros from; cbn; [reflexivity|].
  now rewrite IH.
Qed.

Lemma connect_attempts_S (server : nat -> attempt_result) (retries delay : Z)
    (attempt todo : nat) (w : World) :
  connect_attempts server retries delay attempt (S todo) w
  = match server attempt with
    | Accepts => (Connected, emit (Output MsgConnected) (emit Connect w))
    | Refuses e =>
        if Z.of_nat attempt <? retries - 1 then
          connect_attempts server retries delay (S attempt) todo
            (emit (Sleep delay) (emit (Output (MsgRetrying delay))
               (emit (Output (MsgConnectFailed e)) (emit Connect w))))
        else (SysExit 1, emit (Output (MsgConnectFailed e)) (emit Connect w))
    end.
Proof. reflexivity. Qed.

(** [k] refused attempts, then an accepted one, within the budget. *)
Lemma connect_attempts_accepted (server : nat -> attempt_result) (retries delay : Z) (k : nat) :
  forall (attempt todo : nat) (w : World),
    (forall j, (j < k)%nat -> server (attempt + j)%nat <> Accepts) ->
    server (attempt + k)%nat = Accepts ->
    (k < todo)%nat ->
    Z.of_nat (attempt + k) <= retries - 1 ->
    connect_attempts server retries delay attempt todo w
    = (Connected,
       emits (flat_map (fun j => retried delay (refusal (server j))) (seq attempt k)
              ++ [Connect; Output MsgConnected]) w).
Proof.
  induction k as [|k IH]; intros attempt todo w Hfail Hok Htodo Hbudget.
  - destruct todo as [|todo]; [lia|]. rewrite connect_attempts_S.
    rewrite Nat.add_0_r in Hok. rewrite Hok.
    rewrite !emit_emits, !emits_emits. reflexivity.
  - destruct todo as [|todo]; [lia|]. rewrite connect_attempts_S.
    pose proof (Hfail 0%nat ltac:(lia)) as H0. rewrite Nat.add_0_r in H0.
    destruct (server attempt) as [|e] eqn:E; [contradiction|].
    destruct (Z.ltb_spec (Z.of_nat attempt) (retries - 1)) as [_|Hge]; [|lia].
    rewrite IH.
    + cbn. rewrite E. cbn. rewrite !emit_emits, !emits_emits. reflexivity.
    + intros j Hj. replace (S attempt + j)%nat with (attempt + S j)%nat by lia.
      apply Hfail. lia.
    + replace (S attempt + k)%nat with (attempt + S k)%nat by lia. exact Hok.
    + lia.
    + lia.
Qed.

(** Every attempt of the budget refused: the last one is not followed by
    a sleep but by [exit(1)]. *)
Lemma connect_attempts_refused (server : nat -> attempt_result) (retries delay : Z) (todo : nat) :
  forall (attempt : nat) (w : World),
    (forall j, (j <= todo)%nat -> server (attempt + j)%nat <> Accepts) ->
    Z.of_nat (attempt + todo) = retries - 1 ->
    connect_attempts server retries delay attempt (S todo) w
    = (SysExit 1,
       emits (flat_map (fun j => retried delay (refusal (server j))) (seq attempt todo)
              ++ [Connect; Output (MsgConnectFailed (refusal (server (attempt + todo)%nat)))]) w).
Proof.
  induction todo as [|todo IH]; intros attempt w Hfail Hbudget.
  - rewrite connect_attempts_S.
    pose proof (Hfail 0%nat ltac:(lia)) as H0. rewrite Nat.add_0_r in *.
    destruct (server attempt) as [|e] eqn:E; [contradiction|].
    destruct (Z.ltb_spec (Z.of_nat attempt) (retries - 1)) as [Hlt|_]; [lia|].
    cbn. rewrite !emit_emits, !emits_emits. reflexivity.
  - rewrite connect_attempts_S.
    pose proof (Hfail 0%nat ltac:(lia)) as H0. rewrite Nat.add_0_r in H0.
    destruct (server attempt) as [|e] eqn:E; [contradiction|].
    destruct (Z.ltb_spec (Z.of_nat attempt) (retries - 1)) as [_|Hge]; [|lia].
    rewrite IH.
    + cbn. rewrite E. cbn. rewrite !emit_emits, !emits_emits.
      rewrite Nat.add_succ_r. reflexivity.
    + intros j Hj. replace (S attempt + j)%nat with (attempt + S j)%nat by lia.
      apply Hfail. lia.
    + lia.
Qed.

Lemma scan_attempts (server : nat -> attempt_result) (n : nat) :
  (forall j, (j < n)%nat -> server j <> Accepts)
  \/ (exists k0, (k0 < n)%nat /\ server k0 = Accepts
                 /\ forall j, (j < k0)%nat -> server j <> Accepts).
Proof.
  induction n as [|n [IH|(k0 & Hk0 & Hs & Hfirst)]].
  - left. intros j Hj. lia.
  - destruct (server n) as [|e] eqn:E.
    + right. exists n. repeat split; [lia|exact E|exact IH].
    + left. intros j Hj. destruct (decide (j = n)) as [->|Hne].
      * rewrite E. discriminate.
      * apply IH. lia.
  - right. exists k0. repeat split; [lia|exact Hs|exact Hfirst].
Qed.

(** The first attempt that is accepted. *)
Lemma first_accepted (server : nat -> attempt_result) (k : nat) :
  server k = Accepts ->
  exists k0, (k0 <= k)%nat /\ server k0 = Accepts
             /\ forall j, (j < k0)%nat -> server j <> Accepts.
Proof.
  intros Hk. destruct (scan_attempts server (S k)) as [Hnone|(k0 & Hk0 & Hs & Hfirst)].
  - exfalso. apply (Hnone k); [lia|exact Hk].
  - exists k0. repeat split; [lia|exact Hs|exact Hfirst].
Qed.

(** ** The script as a whole *)

(** Connecting touches nothing but the trace, and the store not at all. *)
Lemma connect_attempts_emits (server : nat -> attempt_result) (retries delay : Z) (todo : nat) :
  forall (attempt : nat) (w : World),
  exists delta,
    (connect_attempts server retries delay attempt todo w).2 = emits delta w
    /\ Forall (fun e => touches_store e = false) delta.
Proof.
  induction todo as [|todo IH]; intros attempt w.
  - exists []. split; [|constructor]. unfold emits. cbn. rewrite app_nil_r. now destruct w.
  - rewrite connect_attempts_S. destruct (server attempt) as [|e].
    + exists [Connect; Output MsgConnected]. split; [|repeat constructor].
      cbn. now rewrite !emit_emits, !emits_emits.
    + destruct (Z.of_nat attempt <? retries - 1).
      * destruct (IH (S attempt) (emit (Sleep delay) (emit (Output (MsgRetrying delay))
                    (emit (Output (MsgConnectFailed e)) (emit Connect w))))) as (delta & -> & Hd).
        eexists. rewrite !emit_emits, !emits_emits. split; [reflexivity|].
        repeat (constructor; [reflexivity|]). exact Hd.
      * exists [Connect; Output (MsgConnectFailed e)]. split; [|repeat constructor].
        cbn. now rewrite !emit_emits, !emits_emits.
Qed.

Lemma connect_to_database_emits (server : nat -> attempt_result) (retries delay : Z)
    (w : World) (r : connect_result) (w1 : World) :
  connect_to_database server retries delay w = (r, w1) ->
  exists delta, w1 = emits delta w /\ Forall (fun e => touches_store e = false) delta.
Proof.
  unfold connect_to_database. intros H.
  destruct (connect_attempts_emits server retries delay (Z.to_nat retries) 0
              (emit (Output MsgConnecting) w)) as (delta & E & Hd).
  rewrite H in E. cbn in E. subst w1.
  eexists. rewrite emit_emits, emits_emits. split; [reflexivity|].
  constructor; [reflexivity|exact Hd].
Qed.

Lemma ingest_app (pre items : list csv_item) (w w1 : World) :
  ingest pre w = (Ok tt, w1) -> ingest (pre ++ items) w = ingest items w1.
Proof.
  revert w. induction pre as [|[row|e] pre IH]; intros w H; cbn in *.
  - now inversion H.
  - apply bind_Ok_inv in H as ([] & w0 & Hr & H).
    rewrite (bind_Ok _ _ _ _ _ Hr). now apply IH.
  - discriminate.
Qed.

(** The loop over rows that all get processed to their end, from tables
    that meet the constraints. *)
Lemma ingest_rows_effect (rows : list Row) :
  forall (w w' : World),
    wf w -> ingest (CsvRow <$> rows) w = (Ok tt, w') ->
    wf w'
    /\ (committed w = current w -> committed w' = current w')
    /\ length (t_books (current w')) = (length (t_books (current w)) + length rows)%nat
    /\ length (t_book_author (current w'))
       = (length (t_book_author (current w))
          + sum_list_with (fun row => length (remove_dups (row_authors row))) rows)%nat.
Proof.
  induction rows as [|row rows IH]; intros w w' Hwf H; cbn in H.
  - inversion H; subst. cbn. repeat split; [apply Hwf..|auto|lia|lia].
  - apply bind_Ok_inv in H as ([] & w1 & Hr & H).
    destruct (process_row_effect _ _ _ Hwf Hr) as (Hwf1 & Hc1 & Hb1 & Hl1).
    destruct (IH _ _ Hwf1 H) as (Hwf' & Hc' & Hb' & Hl').
    split; [exact Hwf'|]. split; [auto|]. cbn. lia.
Qed.

Lemma ingest_rows_returns (rows : list Row) (w : World) :
  (forall t q, db_error t q = None) -> (forall t, commit_error t = None) ->
  Forall readable rows ->
  exists w', ingest (CsvRow <$> rows) w = (Ok tt, w').
Proof.
  intros Hq Hc Hrows. revert w. induction Hrows as [|row rows Hrow _ IH]; intros w.
  - eexists. reflexivity.
  - destruct (process_row_returns row w Hq Hc Hrow) as (w1 & H1).
    cbn. rewrite (bind_Ok _ _ _ _ _ H1). apply IH.
Qed.

(** ** The shape of one processed row *)

Lemma links_of_app (b : Z) (rows rows' : list book_author.row) :
  links_of b (rows ++ rows') = links_of b rows ++ links_of b rows'.
Proof. unfold links_of. apply filter_app. Qed.

Lemma links_of_below (b : Z) (rows : list book_author.row) :
  Forall (fun r => book_author.book_id r < b) rows -> links_of b rows = [].
Proof.
  unfold links_of. induction 1 as [|r rows Hr _ IH]; [reflexivity|].
  rewrite filter_cons. case_decide; [lia|exact IH].
Qed.

Lemma links_of_all (b : Z) (rows : list book_author.row) :
  Forall (fun r => book_author.book_id r = b) rows -> links_of b rows = rows.
Proof.
  unfold links_of. induction 1 as [|r rows Hr _ IH]; [reflexivity|].
  rewrite filter_cons. case_decide; [now rewrite IH|contradiction].
Qed.

(** A row processed to its end: the book insert with the row's seven
    fields, then the author loop, in which the resolver is called once
    for each split and trimmed name, in order, each call followed by an
    association insert with the book_id that the book insert returned,
    then the commit. *)
Lemma process_row_shape (row : Row) (w w' : World) :
  process_row row w = (Ok tt, w') ->
  exists s p1 p2 p3 p4 p5 p6 p7 delta added,
    row !! "authors" = Some (Some s)
    /\ trace w' = trace w
                  ++ [Output (MsgInsertingBook p3 p1);
                      Execute (InsertBook books_columns [p1; p2; p3; p4; p5; p6; p7]);
                      Output (MsgInsertedBook (books_seq w))]
                  ++ delta ++ [Commit]
    /\ resolutions delta = PyStr.strip <$> PyStr.split (ord ",") s
    /\ association_books (executed delta)
       = replicate (length (PyStr.split (ord ",") s)) (books_seq w)
    /\ t_books (current w')
       = t_books (current w)
         ++ [{| books.book_id := books_seq w;
                books.isbn13 := p1; books.publication_year := p2; books.title := p3;
                books.rating_avg := p4; books.rating_count := p5;
                books.image_url := p6; books.image_small_url := p7 |}]
    /\ t_book_author (current w') = t_book_author (current w) ++ added
    /\ Forall (fun r => book_author.book_id r = books_seq w) added
    /\ t_authors (current w) `prefix_of` t_authors (current w').
Proof.
  intros H.
  apply process_row_Ok in H as (w1 & s & w2 & Hb & Hs & Hl & _ & ->).
  apply insert_book_Ok in Hb
    as (p1 & p2 & p3 & p4 & p5 & p6 & p7 & _ & _ & _ & _ & _ & _ & _ & _ & Hc1 & _ & _ & _ & Ht1).
  apply link_authors_Ok in Hl
    as (Hbk & _ & Ha & (added & Hadd & Hall) & (delta & Ht2 & Hres & Hex)).
  exists s, p1, p2, p3, p4, p5, p6, p7, delta, added.
  rewrite Hc1 in Hbk, Hadd, Ha. cbn in Hbk, Hadd, Ha. rewrite length_fmap in Hex.
  split; [exact Hs|]. split.
  { cbn. rewrite Ht2, Ht1, <- !app_assoc. reflexivity. }
  cbn. auto 10.
Qed.

(** The associations of the new book are as many as the row has distinct
    names. *)
Lemma process_row_links (row : Row) (w w' : World) :
  wf w -> process_row row w = (Ok tt, w') ->
  length (links_of (books_seq w) (t_book_author (current w')))
  = length (remove_dups (row_authors row)).
Proof.
  intros Hwf H.
  destruct (process_row_effect _ _ _ Hwf H) as (_ & _ & _ & Hlen).
  apply process_row_shape in H
    as (s & p1 & p2 & p3 & p4 & p5 & p6 & p7 & delta & added & _ & _ & _ & _ & _ & Hadd & Hall & _).
  rewrite Hadd in Hlen |- *. rewrite length_app in Hlen.
  rewrite links_of_app, links_of_below, links_of_all by (assumption || apply Hwf).
  cbn. lia.
Qed.

(** ** Counting rows *)

Lemma author_lookup_None_filter (name : unicode) (t : Tables) :
  author_lookup name t = None ->
  filter (fun r => authors.name r = name) (t_authors t) = [].
Proof.
  unfold author_lookup, select_author.
  destruct (filter _ (t_authors t)); [reflexivity|discriminate].
Qed.

Lemma count_pair_other (b a b' a' : Z) :
  (b', a') <> (b, a) ->
  count_pair b' a' [{| book_author.book_id := b; book_author.author_id := a |}] = 0%nat.
Proof.
  intros Hne. unfold count_pair. rewrite filter_cons. cbn.
  case_decide as E; [|reflexivity]. destruct E as [-> ->]. contradiction.
Qed.

Lemma count_pair_self (b a : Z) :
  count_pair b a [{| book_author.book_id := b; book_author.author_id := a |}] = 1%nat.
Proof.
  unfold count_pair. rewrite filter_cons. cbn.
  case_decide as E; [reflexivity|]. exfalso. apply E. auto.
Qed.

(** What one conflict-ignoring insert does to the number of rows of each
    pair. *)
Lemma execute_link_count (b a : Z) (w w' : World) :
  execute (InsertBookAuthor b a) w = (Ok tt, w') ->
  count_pair b a (t_book_author (current w'))
  = Nat.max 1 (count_pair b a (t_book_author (current w)))
  /\ forall b' a', (b', a') <> (b, a) ->
       count_pair b' a' (t_book_author (current w'))
       = count_pair b' a' (t_book_author (current w)).
Proof.
  intros H. apply execute_link_Ok in H as (_ & _ & -> & _).
  rewrite linked_count. split.
  - rewrite count_pair_app.
    destruct (count_pair b a (t_book_author (current w))) as [|n];
      cbn [negb Nat.eqb Nat.max Nat.add].
    + now rewrite count_pair_self.
    + unfold count_pair. cbn. lia.
  - intros b' a' Hne. rewrite count_pair_app.
    destruct (negb _); [unfold count_pair; cbn; lia|].
    rewrite count_pair_other by assumption. lia.
Qed.

(** ** The properties of the specification *)

(** C1 (amended): the commit at the end of a row makes durable whatever
    of the row is still pending.  The commit the resolver issues after
    inserting an author is a commit of the same connection: it makes the
    new author durable together with everything pending at that moment,
    the row's book insert and the associations inserted so far included.
    What was pending when the resolver created an author therefore stays
    in the store however the rest of the run ends. *)
Theorem C1_commit_boundaries :
  (forall (row : Row) (w w' : World),
      process_row row w = (Ok tt, w') -> committed w' = current w')
  /\ (forall (name : unicode) (w : World) (id : Z) (w' : World),
         get_or_create_author name w = (Ok id, w') ->
         author_lookup name (current w) = None ->
         committed w' = current w'
         /\ t_authors (current w')
            = t_authors (current w) ++ [{| authors.author_id := id; authors.name := name |}]
         /\ t_books (current w') = t_books (current w)
         /\ t_book_author (current w') = t_book_author (current w))
  /\ (forall (name : unicode) (w : World) (id : Z) (w1 : World)
             (b : Z) (rest : list unicode) (items : list csv_item)
             (r : result unit) (w2 : World),
         get_or_create_author name w = (Ok id, w1) ->
         author_lookup name (current w) = None ->
         (execute (InsertBookAuthor b id) ;; link_authors b rest ;; commit ;; ingest items) w1
         = (r, w2) ->
         {| authors.author_id := id; authors.name := name |} ∈ t_authors (committed w2)
         /\ tables_le (current w) (committed w2)).
Proof.
  split; [|split].
  - intros row w w' H.
    apply process_row_Ok in H as (_ & _ & w2 & _ & _ & _ & _ & ->). reflexivity.
  - intros name w id w' H Hnew.
    apply get_or_create_author_Ok in H as [_ H]. rewrite Hnew in H.
    destruct H as (_ & Hc & Hd & _). rewrite Hd, Hc. cbn. auto.
  - intros name w id w1 b rest items r w2 H Hnew Hrest.
    apply get_or_create_author_Ok in H as [_ H]. rewrite Hnew in H.
    destruct H as (_ & Hc & Hd & _).
    assert (Hresp : respects keeps
              (execute (InsertBookAuthor b id) ;; link_authors b rest ;; commit ;; ingest items)).
    { apply respects_bind; [typeclasses eauto|apply keeps_execute|intros _].
      apply respects_bind; [typeclasses eauto|apply keeps_link_authors|intros _].
      apply respects_bind; [typeclasses eauto|apply keeps_commit|intros _].
      apply keeps_ingest. }
    pose proof (Hresp _ _ _ Hrest) as Hkeeps.
    destruct (Hkeeps (settled_eq _ Hd)) as (_ & Hle & _).
    rewrite Hd, Hc in Hle. destruct Hle as (Ha & Hb & Hl). cbn in Ha, Hb, Hl.
    split.
    + destruct Ha as [more ->]. apply elem_of_app. left. apply elem_of_app. right. left.
    + split; [|split; assumption].
      etransitivity; [|exact Ha]. now apply prefix_app_r.
Qed.

(** C2: with the default budget of 5 attempts and the delay of 5 seconds,
    when some attempt among the first five is accepted (the fifth after
    four refusals included), [connect_to_database] returns the connection
    and the script goes on to ingestion; there was one sleep of the fixed
    delay after each refused attempt before the accepted one and nowhere
    else.  When all five are refused the script exits with status 1
    without touching the store: four sleeps of the fixed delay, one
    between each two attempts, none after the last. *)
Theorem C2_connect_retry_budget (server : nat -> attempt_result) (file : csv_file) (w : World) :
  (forall k, (k < 5)%nat -> server k = Accepts ->
     exists k0 delta,
       (k0 <= k)%nat
       /\ delta = [Output MsgConnecting]
                  ++ flat_map (fun j => retried 5 (refusal (server j))) (seq 0 k0)
                  ++ [Connect; Output MsgConnected]
       /\ connect_to_database server 5 5 w = (Connected, emits delta w)
       /\ main server file w = ingest_and_teardown file (emits delta w)
       /\ sleeps delta = replicate k0 5)
  /\ ((forall k, (k < 5)%nat -> server k <> Accepts) ->
      exists delta,
        delta = [Output MsgConnecting]
                ++ flat_map (fun j => retried 5 (refusal (server j))) (seq 0 4)
                ++ [Connect; Output (MsgConnectFailed (refusal (server 4%nat)))]
        /\ main server file w = (1, emits delta w)
        /\ sleeps delta = [5; 5; 5; 5]
        /\ Forall (fun e => touches_store e = false) delta).
Proof.
  split.
  - intros k Hk Hacc.
    destruct (first_accepted server k Hacc) as (k0 & Hle & Hacc0 & Hfirst).
    exists k0. eexists. split; [exact Hle|]. split; [reflexivity|].
    assert (Hconn : connect_to_database server 5 5 w
                    = (Connected,
                       emits ([Output MsgConnecting]
                              ++ flat_map (fun j => retried 5 (refusal (server j))) (seq 0 k0)
                              ++ [Connect; Output MsgConnected]) w)).
    { unfold connect_to_database.
      rewrite (connect_attempts_accepted server 5 5 k0 0 (Z.to_nat 5)); cbn; try lia; try assumption.
      now rewrite emit_emits, emits_emits. }
    split; [exact Hconn|]. split.
    + unfold main. now rewrite Hconn.
    + cbn [app sleeps]. rewrite sleeps_app, sleeps_retried. cbn. now rewrite app_nil_r.
  - intros Hall. eexists. split; [reflexivity|].
    assert (Hconn : connect_to_database server 5 5 w
                    = (SysExit 1,
                       emits ([Output MsgConnecting]
                              ++ flat_map (fun j => retried 5 (refusal (server j))) (seq 0 4)
                              ++ [Connect; Output (MsgConnectFailed (refusal (server 4%nat)))]) w)).
    { unfold connect_to_database. change (Z.to_nat 5) with 5%nat.
      rewrite (connect_attempts_refused server 5 5 4 0).
      - now rewrite emit_emits, emits_emits.
      - intros j Hj. apply Hall. cbn. lia.
      - reflexivity. }
    split; [unfold main; now rewrite Hconn|]. split; [reflexivity|].
    repeat (constructor; [reflexivity|]). constructor.
Qed.

(** C3: a run of the loop over N rows that all get processed to their end
    adds exactly N rows to books, one per CSV row whatever its ISBN (so a
    second run over the same rows adds N more), and adds to book_author,
    for each CSV row, one row per distinct trimmed author name of that
    row.  With a store that refuses nothing and rows that have all the
    columns, the run does end normally. *)
Theorem C3_row_counts (rows : list Row) (w : World) :
  wf w -> committed w = current w ->
  ((forall t q, db_error t q = None) -> (forall t, commit_error t = None) ->
   Forall readable rows ->
   exists w', ingest (CsvRow <$> rows) w = (Ok tt, w'))
  /\ (forall w' : World,
         ingest (CsvRow <$> rows) w = (Ok tt, w') ->
         length (t_books (committed w'))
         = (length (t_books (committed w)) + length rows)%nat
         /\ length (t_book_author (committed w'))
            = (length (t_book_author (committed w))
               + sum_list_with (fun row => length (remove_dups (row_authors row))) rows)%nat
         /\ forall w'' : World,
              ingest (CsvRow <$> rows) w' = (Ok tt, w'') ->
              length (t_books (committed w''))
              = (length (t_books (committed w)) + 2 * length rows)%nat).
Proof.
  intros Hwf Hsync. split.
  - intros Hq Hc Hrows. now apply ingest_rows_returns.
  - intros w' H.
    destruct (ingest_rows_effect _ _ _ Hwf H) as (Hwf' & Hsync' & Hb & Hl).
    specialize (Hsync' Hsync). rewrite Hsync', Hsync.
    split; [exact Hb|]. split; [exact Hl|].
    intros w'' H'.
    destruct (ingest_rows_effect _ _ _ Hwf' H') as (_ & Hsync'' & Hb' & _).
    rewrite (Hsync'' Hsync'), Hb', Hb. lia.
Qed.

(** C4: resolving the same name twice gives the same identifier both
    times; the second call changes neither the tables nor the sequence,
    so the two calls create one authors row when the name was not stored
    and none when it was.  The row holds the name exactly as passed, the
    identifier of a name stays the same when other names are resolved in
    between, and, author_id being a key, a name that differs in any
    character gets another identifier. *)
Theorem C4_author_resolution_idempotent (name : unicode) (w : World) :
  ((forall t q, db_error t q = None) -> (forall t, commit_error t = None) ->
   exists id w1 w2,
     get_or_create_author name w = (Ok id, w1)
     /\ get_or_create_author name w1 = (Ok id, w2))
  /\ (forall (id1 : Z) (w1 : World) (id2 : Z) (w2 : World),
         get_or_create_author name w = (Ok id1, w1) ->
         get_or_create_author name w1 = (Ok id2, w2) ->
         id2 = id1
         /\ current w2 = current w1
         /\ committed w2 = committed w1
         /\ authors_seq w2 = authors_seq w1
         /\ {| authors.author_id := id1; authors.name := name |} ∈ t_authors (current w2)
         /\ t_authors (current w2)
            = t_authors (current w)
              ++ match author_lookup name (current w) with
                 | None => [{| authors.author_id := id1; authors.name := name |}]
                 | Some _ => []
                 end
         /\ (author_lookup name (current w) = None ->
             length (filter (fun r => authors.name r = name) (t_authors (current w2))) = 1%nat))
  /\ (forall (id1 : Z) (w1 : World) (other : unicode) (id' : Z) (w2 : World)
             (id3 : Z) (w3 : World),
         get_or_create_author name w = (Ok id1, w1) ->
         get_or_create_author other w1 = (Ok id', w2) ->
         get_or_create_author name w2 = (Ok id3, w3) ->
         id3 = id1)
  /\ (forall (id1 : Z) (w1 : World) (other : unicode) (id' : Z) (w2 : World),
         wf w -> other <> name ->
         get_or_create_author name w = (Ok id1, w1) ->
         get_or_create_author other w1 = (Ok id', w2) ->
         id' <> id1).
Proof.
  assert (Htwice : forall id1 w1 id2 w2,
             get_or_create_author name w = (Ok id1, w1) ->
             get_or_create_author name w1 = (Ok id2, w2) ->
             id2 = id1 /\ current w2 = current w1 /\ committed w2 = committed w1
             /\ authors_seq w2 = authors_seq w1).
  { intros id1 w1 id2 w2 H1 H2.
    destruct (get_or_create_author_lookup _ _ _ _ H1) as [Hlk _].
    apply get_or_create_author_Ok in H2 as [_ H2]. rewrite Hlk in H2.
    destruct H2 as (-> & ? & ? & ? & _). auto. }
  split; [|split; [|split]].
  - intros Hq Hc.
    destruct (get_or_create_author_returns name w Hq Hc) as (id & w1 & H1).
    destruct (get_or_create_author_returns name w1 Hq Hc) as (id2 & w2 & H2).
    destruct (Htwice _ _ _ _ H1 H2) as (-> & _). eauto.
  - intros id1 w1 id2 w2 H1 H2.
    destruct (Htwice _ _ _ _ H1 H2) as (-> & Hc & Hd & Hs).
    destruct (get_or_create_author_lookup _ _ _ _ H1) as [Hlk _].
    repeat (split; [assumption || reflexivity|]).
    rewrite Hc. split; [now apply author_lookup_Some|].
    apply get_or_create_author_Ok in H1 as [_ H1].
    destruct (author_lookup name (current w)) eqn:E.
    + destruct H1 as (_ & -> & _). split; [now rewrite app_nil_r|discriminate].
    + destruct H1 as (_ & -> & _). cbn. split; [reflexivity|]. intros _.
      rewrite filter_app, (author_lookup_None_filter _ _ E), filter_cons. cbn.
      case_decide; [reflexivity|contradiction].
  - intros id1 w1 other id' w2 id3 w3 H1 H2 H3.
    destruct (get_or_create_author_lookup _ _ _ _ H1) as [Hlk _].
    destruct (get_or_create_author_lookup _ _ _ _ H2) as [_ Hpre].
    apply (author_lookup_app _ _ (current w2)) in Hlk; [|exact Hpre].
    apply get_or_create_author_Ok in H3 as [_ H3]. rewrite Hlk in H3.
    now destruct H3 as (-> & _).
  - intros id1 w1 other id' w2 Hwf Hne H1 H2 ->.
    destruct (get_or_create_author_wf _ _ _ _ Hwf H1) as [Hwf1 _].
    destruct (get_or_create_author_wf _ _ _ _ Hwf1 H2) as [Hwf2 _].
    destruct (get_or_create_author_lookup _ _ _ _ H1) as [Hlk1 _].
    destruct (get_or_create_author_lookup _ _ _ _ H2) as [Hlk2 Hpre].
    apply (author_lookup_app _ _ (current w2)) in Hlk1; [|exact Hpre].
    apply Hne. eapply author_lookup_inj; [apply Hwf2|exact Hlk2|exact Hlk1].
Qed.

(** C5: inserting the same (book, author) association twice leaves
    exactly one row of that pair; the second insert changes nothing, and
    no pair ever gets a second row.  In particular a name repeated in one
    CSV row gives one association. *)
Theorem C5_association_inserted_once (b a : Z) (w : World) :
  (forall b' a', (count_pair b' a' (t_book_author (current w)) <= 1)%nat) ->
  (forall (w1 w2 : World),
      execute (InsertBookAuthor b a) w = (Ok tt, w1) ->
      execute (InsertBookAuthor b a) w1 = (Ok tt, w2) ->
      count_pair b a (t_book_author (current w1)) = 1%nat
      /\ count_pair b a (t_book_author (current w2)) = 1%nat
      /\ t_book_author (current w2) = t_book_author (current w1)
      /\ forall b' a', (count_pair b' a' (t_book_author (current w2)) <= 1)%nat)
  /\ (forall (n : unicode) (w' : World),
         link_authors b [n; n] w = (Ok tt, w') ->
         exists id,
           author_lookup n (current w') = Some id
           /\ count_pair b id (t_book_author (current w')) = 1%nat
           /\ (length (t_book_author (current w')) <= S (length (t_book_author (current w))))%nat).
Proof.
  intros Huniq. split.
  - intros w1 w2 H1 H2.
    destruct (execute_link_count _ _ _ _ H1) as [E1 O1].
    destruct (execute_link_count _ _ _ _ H2) as [E2 O2].
    assert (C1 : count_pair b a (t_book_author (current w1)) = 1%nat)
      by (specialize (Huniq b a); lia).
    assert (C2 : count_pair b a (t_book_author (current w2)) = 1%nat) by lia.
    repeat split; [exact C1|exact C2| |].
    + apply execute_link_Ok in H2 as (_ & _ & -> & _).
      rewrite linked_count, C1. cbn. now rewrite app_nil_r.
    + intros b' a'. destruct (decide ((b', a') = (b, a))) as [[= -> ->]|Hne]; [lia|].
      rewrite O2, O1 by assumption. apply Huniq.
  - intros n w' H. cbn in H.
    apply bind_Ok_inv in H as (id & w1 & Hg1 & H).
    apply bind_Ok_inv in H as ([] & w2 & Hx1 & H).
    apply bind_Ok_inv in H as (id2 & w3 & Hg2 & H).
    apply bind_Ok_inv in H as ([] & w4 & Hx2 & H).
    inversion H; subst w'; clear H.
    destruct (get_or_create_author_lookup _ _ _ _ Hg1) as [Hlk1 _].
    pose proof (execute_link_Ok _ _ _ _ Hx1) as (Ha2 & _ & Hl2 & _).
    assert (Hlk2 : author_lookup n (current w2) = Some id).
    { unfold author_lookup, select_author in *. now rewrite Ha2. }
    pose proof (get_or_create_author_Ok _ _ _ _ Hg2) as [_ Hg2'].
    rewrite Hlk2 in Hg2'. destruct Hg2' as (-> & Hc3 & _).
    pose proof (execute_link_Ok _ _ _ _ Hx2) as (Ha4 & _ & Hl4 & _).
    destruct (execute_link_count _ _ _ _ Hx1) as [E1 _].
    destruct (execute_link_count _ _ _ _ Hx2) as [E2 _].
    assert (Hl1 : t_book_author (current w1) = t_book_author (current w)).
    { apply get_or_create_author_Ok in Hg1 as [_ Hg1].
      destruct (author_lookup n (current w)).
      - destruct Hg1 as (_ & -> & _). reflexivity.
      - destruct Hg1 as (_ & -> & _). reflexivity. }
    exists id. split; [|split].
    + unfold author_lookup, select_author in *. now rewrite Ha4, Hc3.
    + rewrite Hc3 in E2. rewrite Hl1 in E1. specialize (Huniq b id). lia.
    + rewrite Hl4, Hc3. rewrite linked_count.
      rewrite Hl1 in E1. specialize (Huniq b id).
      replace (count_pair b id (t_book_author (current w2))) with 1%nat by lia.
      cbn. rewrite app_nil_r, Hl2, Hl1, length_app.
      destruct (linked b id (t_book_author (current w))); cbn; lia.
Qed.

(** C6: the authors field, any sequence of Unicode code points, is cut
    at every comma (the pieces joined by commas give the field back, and
    no piece holds a comma), each piece is trimmed of the whitespace
    around it, in the sense of [str.isspace], and of nothing else, and
    the resolver is called once per piece, in order, with the trimmed
    text.
    A row whose field is "Jane Doe, John Smith" gives the two resolutions
    "Jane Doe" and "John Smith" and two book_author rows for its book. *)
Theorem C6_authors_split_and_trimmed :
  (forall s : unicode,
      PyStr.join (ord ",") (PyStr.split (ord ",") s) = s
      /\ Forall (fun piece => PyStr.contains (ord ",") piece = false) (PyStr.split (ord ",") s))
  /\ (forall piece : unicode,
         exists l r,
           piece = l ++ PyStr.strip piece ++ r
           /\ PyStr.all_space l = true /\ PyStr.all_space r = true
           /\ PyStr.starts_with_space (PyStr.strip piece) = false
           /\ PyStr.ends_with_space (PyStr.strip piece) = false)
  /\ (forall (row : Row) (w w' : World),
         process_row row w = (Ok tt, w') ->
         exists s delta,
           row !! "authors" = Some (Some s)
           /\ trace w' = trace w ++ delta
           /\ resolutions delta = PyStr.strip <$> PyStr.split (ord ",") s)
  /\ (forall (row : Row) (w : World),
         (forall t q, db_error t q = None) -> (forall t, commit_error t = None) ->
         wf w -> readable row ->
         row !! "authors" = Some (Some (chars "Jane Doe, John Smith")) ->
         exists w' delta,
           process_row row w = (Ok tt, w')
           /\ trace w' = trace w ++ delta
           /\ resolutions delta = [chars "Jane Doe"; chars "John Smith"]
           /\ length (links_of (books_seq w) (t_book_author (current w'))) = 2%nat).
Proof.
  split; [|split; [|split]].
  - intros s. split; [apply join_split|apply split_pieces_free].
  - apply strip_spec.
  - intros row w w' H.
    apply process_row_shape in H
      as (s & p1 & p2 & p3 & p4 & p5 & p6 & p7 & delta & added & Hs & Ht & Hres & _).
    exists s. eexists. split; [exact Hs|]. split; [exact Ht|].
    rewrite !resolutions_app. cbn. now rewrite app_nil_r.
  - intros row w Hq Hc Hwf Hrow Hs.
    destruct (process_row_returns row w Hq Hc Hrow) as (w' & H).
    pose proof (process_row_links _ _ _ Hwf H) as Hlinks.
    pose proof (process_row_shape _ _ _ H)
      as (s & p1 & p2 & p3 & p4 & p5 & p6 & p7 & delta & added & Hs' & Ht & Hres & _).
    rewrite Hs in Hs'. inversion Hs'; subst s; clear Hs'.
    exists w'. eexists. split; [exact H|]. split; [exact Ht|]. split.
    + rewrite !resolutions_app. cbn [resolutions]. rewrite app_nil_r. cbn [app].
      rewrite Hres. reflexivity.
    + rewrite Hlinks. unfold row_authors. rewrite Hs. reflexivity.
Qed.

(** C7: a failure raised in the body of the loop for some row is caught
    by the generic handler: the raw text of the exception is printed, no
    later row is processed, what earlier rows committed stays committed,
    the cursor and the connection are closed, and the exit status is 0. *)
Theorem C7_row_failure_aborts_loop (server : nat -> attempt_result)
    (pre post : list csv_item) (row : Row) (w wc w1 w2 : World) (e : exn) :
  connect_to_database server 5 5 w = (Connected, wc) ->
  ingest pre (emit (Output MsgLoading) (session_start wc)) = (Ok tt, w1) ->
  process_row row w1 = (Raise e, w2) ->
  exists final,
    main server (Opened (pre ++ CsvRow row :: post)) w = (0, final)
    /\ trace final = trace w2 ++ [Output (MsgLoadError (str e)); Output MsgClosing;
                                  CursorClose; ConnClose]
    /\ committed final = committed w2
    /\ current final = committed w2
    /\ tables_le (committed w1) (committed final).
Proof.
  intros Hconn Hpre Hrow.
  pose proof (process_row_raises row _ _ _ Hrow) as Hnf.
  assert (Hs1 : settled w1).
  { apply (keeps_ingest pre _ _ _ Hpre). apply settled_eq. reflexivity. }
  destruct (keeps_process_row row _ _ _ Hrow Hs1) as (_ & Hle & _).
  unfold main. rewrite Hconn. unfold ingest_and_teardown, load_csv.
  rewrite (ingest_app _ (CsvRow row :: post) _ _ Hpre).
  cbn [ingest]. rewrite (bind_Raise _ _ _ _ _ Hrow).
  eexists. split; [reflexivity|].
  destruct e; cbn in Hnf; [contradiction|..];
    (cbn; rewrite <- !app_assoc; repeat split; try reflexivity; apply Hle).
Qed.

(** C8: when the input file does not exist, the FileNotFoundError is
    caught and printed, nothing is sent to the store, the tables are as
    they were, the cursor and the connection are closed, and the exit
    status is 0. *)
Theorem C8_missing_file (server : nat -> attempt_result) (text : string) (w wc : World) :
  connect_to_database server 5 5 w = (Connected, wc) ->
  exists delta,
    Forall (fun e => touches_store e = false) delta
    /\ main server (OpenRaises (FileNotFoundError text)) w
       = (0, {| committed := committed w;
                current := committed w;
                authors_seq := authors_seq w;
                books_seq := books_seq w;
                cursor := [];
                trace := trace w ++ delta
                         ++ [Output MsgLoading; Output (MsgFileError text);
                             Output MsgClosing; CursorClose; ConnClose] |}).
Proof.
  intros Hconn.
  destruct (connect_to_database_emits _ _ _ _ _ _ Hconn) as (delta & -> & Hd).
  exists delta. split; [exact Hd|].
  unfold main. rewrite Hconn. unfold ingest_and_teardown. cbn [load_csv raise handle str].
  f_equal. apply World_eq; cbn; try reflexivity. now rewrite <- !app_assoc.
Qed.

(** C9: the book insert sends the row's isbn13,
    original_publication_year, title, average_rating, ratings_count,
    image_url and small_image_url, unchanged and in that order, for the
    columns isbn13, publication_year, title, rating_avg, rating_count,
    image_url and image_small_url; the stored row has exactly these
    values; the book_id the store generated is what the loop keeps, and
    every association insert of the row, one per author mention, carries
    it. *)
Theorem C9_book_insert_verbatim (row : Row) (w : World) :
  ((forall t q, db_error t q = None) ->
   Forall (fun key => is_Some (row !! key)) csv_columns ->
   exists w1, insert_book row w = (Ok (books_seq w), w1))
  /\ (forall (id : Z) (w1 : World),
         insert_book row w = (Ok id, w1) ->
         exists p1 p2 p3 p4 p5 p6 p7,
           row !! "isbn13" = Some p1
           /\ row !! "original_publication_year" = Some p2
           /\ row !! "title" = Some p3
           /\ row !! "average_rating" = Some p4
           /\ row !! "ratings_count" = Some p5
           /\ row !! "image_url" = Some p6
           /\ row !! "small_image_url" = Some p7
           /\ id = books_seq w
           /\ executed (trace w1)
              = executed (trace w)
                ++ [InsertBook ["isbn13"; "publication_year"; "title"; "rating_avg";
                                "rating_count"; "image_url"; "image_small_url"]
                               [p1; p2; p3; p4; p5; p6; p7]]
           /\ t_books (current w1)
              = t_books (current w)
                ++ [{| books.book_id := id;
                       books.isbn13 := p1; books.publication_year := p2;
                       books.title := p3; books.rating_avg := p4;
                       books.rating_count := p5; books.image_url := p6;
                       books.image_small_url := p7 |}])
  /\ (forall w' : World,
         process_row row w = (Ok tt, w') ->
         exists s delta added,
           row !! "authors" = Some (Some s)
           /\ trace w' = trace w ++ delta
           /\ association_books (executed delta)
              = replicate (length (PyStr.split (ord ",") s)) (books_seq w)
           /\ t_book_author (current w') = t_book_author (current w) ++ added
           /\ Forall (fun r => book_author.book_id r = books_seq w) added).
Proof.
  split; [|split].
  - intros Hq Hcols. now apply insert_book_returns.
  - intros id w1 H.
    apply insert_book_Ok in H
      as (p1 & p2 & p3 & p4 & p5 & p6 & p7 & ? & ? & ? & ? & ? & ? & ? & ? & Hc & _ & _ & _ & Ht).
    exists p1, p2, p3, p4, p5, p6, p7.
    repeat (split; [assumption|]). split.
    + rewrite Ht, executed_app. reflexivity.
    + rewrite Hc. reflexivity.
  - intros w' H.
    apply process_row_shape in H
      as (s & p1 & p2 & p3 & p4 & p5 & p6 & p7 & delta & added & Hs & Ht & _ & Hex & _ & Hadd & Hall & _).
    eexists s, _, added.
    split; [exact Hs|]. split; [exact Ht|]. split; [|auto].
    cbn. rewrite !executed_app. cbn. rewrite app_nil_r. exact Hex.
Qed.

(** C10: a row whose authors field is the empty string still has one
    author mention, the empty name: the resolver is called once, with
    the empty string; if no author has the empty name one is created,
    under the next identifier; and one book_author row links the new
    book to that author. *)
Theorem C10_empty_authors_field (row : Row) (w : World) :
  (forall t q, db_error t q = None) -> (forall t, commit_error t = None) ->
  wf w -> readable row ->
  row !! "authors" = Some (Some (chars "")) ->
  exists w' delta a,
    process_row row w = (Ok tt, w')
    /\ trace w' = trace w ++ delta
    /\ resolutions delta = [chars ""]
    /\ author_lookup (chars "") (current w') = Some a
    /\ t_authors (current w')
       = t_authors (current w)
         ++ match author_lookup (chars "") (current w) with
            | None => [{| authors.author_id := authors_seq w; authors.name := chars "" |}]
            | Some _ => []
            end
    /\ t_book_author (current w')
       = t_book_author (current w)
         ++ [{| book_author.book_id := books_seq w; book_author.author_id := a |}].
Proof.
  intros Hq Hc Hwf Hrow Hs.
  destruct (process_row_returns row w Hq Hc Hrow) as (w' & H).
  pose proof (process_row_shape _ _ _ H)
    as (s & p1 & p2 & p3 & p4 & p5 & p6 & p7 & delta & added & Hs' & Ht & Hres & _).
  rewrite Hs in Hs'. inversion Hs'; subst s; clear Hs'.
  pose proof (process_row_Ok _ _ _ H) as (w1 & s & w2 & Hb & Hs' & Hl & _ & Hw').
  rewrite Hs in Hs'. inversion Hs'; subst s; clear Hs'.
  change (PyStr.strip <$> PyStr.split (ord ",") (chars "")) with [chars ""] in Hl, Hres.
  apply insert_book_Ok in Hb
    as (? & ? & ? & ? & ? & ? & ? & _ & _ & _ & _ & _ & _ & _ & _ & Hc1 & _ & Hsa1 & _ & _).
  cbn in Hl.
  apply bind_Ok_inv in Hl as (a & w1' & Hg & Hl).
  apply bind_Ok_inv in Hl as ([] & w2' & Hx & Hl).
  inversion Hl; subst w2'; clear Hl.
  destruct (get_or_create_author_lookup _ _ _ _ Hg) as [Hlk _].
  apply get_or_create_author_Ok in Hg as [_ Hg].
  apply execute_link_Ok in Hx as (Ha2 & _ & Hl2 & _).
  assert (Elk : author_lookup (chars "") (current w1) = author_lookup (chars "") (current w))
    by (unfold author_lookup, select_author; now rewrite Hc1).
  assert (Hw1 : t_authors (current w1) = t_authors (current w)
                /\ t_book_author (current w1) = t_book_author (current w))
    by (rewrite Hc1; auto).
  destruct Hw1 as [Ea1 El1].
  assert (Hw1' : t_book_author (current w1') = t_book_author (current w)
                 /\ t_authors (current w1')
                    = t_authors (current w)
                      ++ match author_lookup (chars "") (current w) with
                         | None => [{| authors.author_id := authors_seq w;
                                       authors.name := chars "" |}]
                         | Some _ => []
                         end).
  { rewrite Elk in Hg. destruct (author_lookup (chars "") (current w)).
    - destruct Hg as (_ & -> & _). rewrite app_nil_r. auto.
    - destruct Hg as (-> & -> & _). cbn. rewrite Hsa1, Ea1, El1. auto. }
  destruct Hw1' as [El1' Ea1'].
  rewrite El1', linked_below in Hl2 by apply Hwf.
  exists w'. eexists. exists a.
  split; [exact H|]. split; [exact Ht|]. split.
  { rewrite !resolutions_app. cbn [resolutions]. rewrite app_nil_r. cbn [app]. exact Hres. }
  subst w'. cbn. split; [|split].
  - unfold author_lookup, select_author in *. now rewrite Ha2.
  - now rewrite Ha2.
  - exact Hl2.
Qed.

(** ** More about the connection loop *)

(** With a budget of at least one attempt the loop never runs out: it
    ends in a connection or in [exit(1)]. *)
Lemma connect_attempts_outcome (server : nat -> attempt_result) (retries delay : Z) (n : nat) :
  forall (w : World),
    Z.of_nat (S n) = retries ->
    (exists k0,
        (k0 <= n)%nat /\ server k0 = Accepts
        /\ (forall j, (j < k0)%nat -> server j <> Accepts)
        /\ connect_attempts server retries delay 0 (S n) w
           = (Connected,
              emits (flat_map (fun j => retried delay (refusal (server j))) (seq 0 k0)
                     ++ [Connect; Output MsgConnected]) w))
    \/ ((forall j, (j <= n)%nat -> server j <> Accepts)
        /\ connect_attempts server retries delay 0 (S n) w
           = (SysExit 1,
              emits (flat_map (fun j => retried delay (refusal (server j))) (seq 0 n)
                     ++ [Connect; Output (MsgConnectFailed (refusal (server n)))]) w)).
Proof.
  intros w Hn.
  destruct (scan_attempts server (S n)) as [Hnone|(k0 & Hk0 & Hacc & Hfirst)].
  - right. split; [intros j Hj; apply Hnone; lia|].
    rewrite (connect_attempts_refused server retries delay n 0).
    + reflexivity.
    + intros j Hj. apply Hnone. cbn. lia.
    + cbn [Nat.add]. lia.
  - left. exists k0. split; [lia|]. split; [exact Hacc|]. split; [exact Hfirst|].
    apply connect_attempts_accepted.
    + intros j Hj. apply Hfirst. exact Hj.
    + exact Hacc.
    + lia.
    + cbn [Nat.add]. lia.
Qed.


(** X2: [connect_to_database] returns None, instead of a connection or an
    exit, exactly when the budget is zero or negative; it then makes no
    attempt at all. *)
Theorem X2_connect_returns_none (server : nat -> attempt_result) (retries delay : Z) (w : World) :
  ((connect_to_database server retries delay w).1 = FellThrough <-> retries <= 0)
  /\ (retries <= 0 ->
      connect_to_database server retries delay w = (FellThrough, emit (Output MsgConnecting) w)).
Proof.
  assert (Hnone : retries <= 0 ->
            connect_to_database server retries delay w
            = (FellThrough, emit (Output MsgConnecting) w)).
  { intros H. unfold connect_to_database. replace (Z.to_nat retries) with 0%nat by lia.
    reflexivity. }
  split; [|exact Hnone]. split.
  - intros H. destruct (Z.le_gt_cases retries 0) as [|Hpos]; [assumption|exfalso].
    unfold connect_to_database in H.
    destruct (Z.to_nat retries) as [|n] eqn:En; [lia|].
    destruct (connect_attempts_outcome server retries delay n (emit (Output MsgConnecting) w))
      as [(k0 & _ & _ & _ & E)|(_ & E)]; [lia| |]; rewrite E in H; discriminate.
  - intros H. now rewrite (Hnone H).
Qed.

(** ** Rows the loop body cannot read *)

Lemma getitem_Some (row : Row) (key : string) (v : value) (w : World) :
  row !! key = Some v -> getitem row key w = (Ok v, w).
Proof. unfold getitem. now intros ->. Qed.

Lemma getitem_None (row : Row) (key : string) (w : World) :
  row !! key = None -> getitem row key w = (Raise (KeyError key), w).
Proof. unfold getitem. now intros ->. Qed.

(** The book insert of a row that lacks one of its columns. *)
Lemma insert_book_missing (row : Row) (w : World) (key : string) :
  first_missing row book_keys = Some key ->
  exists w',
    insert_book row w = (Raise (KeyError key), w')
    /\ row !! key = None
    /\ executed (trace w') = executed (trace w)
    /\ current w' = current w /\ committed w' = committed w
    /\ authors_seq w' = authors_seq w /\ books_seq w' = books_seq w.
Proof.
  unfold book_keys. cbn [first_missing]. unfold insert_book.
  destruct (row !! "title") as [p3|] eqn:E3.
  2:{ intros [= <-]. exists w. rewrite (bind_Raise _ _ _ _ _ (getitem_None _ _ w E3)). auto 10. }
  rewrite (bind_Ok _ _ _ _ _ (getitem_Some _ _ _ w E3)).
  destruct (row !! "isbn13") as [p1|] eqn:E1.
  2:{ intros [= <-]. exists w. rewrite (bind_Raise _ _ _ _ _ (getitem_None _ _ w E1)). auto 10. }
  rewrite (bind_Ok _ _ _ _ _ (getitem_Some _ _ _ w E1)).
  unfold print at 1. unfold bind at 1.
  set (w1 := emit (Output (MsgInsertingBook p3 p1)) w).
  assert (Hw1 : executed (trace w1) = executed (trace w)).
  { unfold w1. cbn. rewrite executed_app. cbn. now rewrite app_nil_r. }
  rewrite (bind_Ok _ _ _ _ _ (getitem_Some _ _ _ w1 E1)).
  destruct (row !! "original_publication_year") as [p2|] eqn:E2.
  2:{ intros [= <-]. exists w1. rewrite (bind_Raise _ _ _ _ _ (getitem_None _ _ w1 E2)). auto 10. }
  rewrite (bind_Ok _ _ _ _ _ (getitem_Some _ _ _ w1 E2)).
  rewrite (bind_Ok _ _ _ _ _ (getitem_Some _ _ _ w1 E3)).
  destruct (row !! "average_rating") as [p4|] eqn:E4.
  2:{ intros [= <-]. exists w1. rewrite (bind_Raise _ _ _ _ _ (getitem_None _ _ w1 E4)). auto 10. }
  rewrite (bind_Ok _ _ _ _ _ (getitem_Some _ _ _ w1 E4)).
  destruct (row !! "ratings_count") as [p5|] eqn:E5.
  2:{ intros [= <-]. exists w1. rewrite (bind_Raise _ _ _ _ _ (getitem_None _ _ w1 E5)). auto 10. }
  rewrite (bind_Ok _ _ _ _ _ (getitem_Some _ _ _ w1 E5)).
  destruct (row !! "image_url") as [p6|] eqn:E6.
  2:{ intros [= <-]. exists w1. rewrite (bind_Raise _ _ _ _ _ (getitem_None _ _ w1 E6)). auto 10. }
  rewrite (bind_Ok _ _ _ _ _ (getitem_Some _ _ _ w1 E6)).
  destruct (row !! "small_image_url") as [p7|] eqn:E7.
  2:{ intros [= <-]. exists w1. rewrite (bind_Raise _ _ _ _ _ (getitem_None _ _ w1 E7)). auto 10. }
  discriminate.
Qed.

(** The book insert of a row that has all its columns gets as far as the
    statement: it returns, or the store refused the insert. *)
Lemma insert_book_present (row : Row) (w : World) :
  first_missing row book_keys = None ->
  (exists w', insert_book row w = (Ok (books_seq w), w'))
  \/ (exists text w', insert_book row w = (Raise (DatabaseError text), w')
                      /\ current w' = current w /\ committed w' = committed w).
Proof.
  unfold book_keys. cbn [first_missing].
  destruct (row !! "title") as [p3|] eqn:E3; [|discriminate].
  destruct (row !! "isbn13") as [p1|] eqn:E1; [|discriminate].
  destruct (row !! "original_publication_year") as [p2|] eqn:E2; [|discriminate].
  destruct (row !! "average_rating") as [p4|] eqn:E4; [|discriminate].
  destruct (row !! "ratings_count") as [p5|] eqn:E5; [|discriminate].
  destruct (row !! "image_url") as [p6|] eqn:E6; [|discriminate].
  destruct (row !! "small_image_url") as [p7|] eqn:E7; [|discriminate].
  intros _.
  unfold insert_book, getitem, bind, print, execute, fetchone, subscript0, ret.
  rewrite E1, E2, E3, E4, E5, E6, E7. cbn.
  destruct (db_error (current w) _) as [text|]; cbn; eauto 10.
Qed.

(** X3: a row that lacks one of the seven book columns makes the loop
    body raise KeyError for the first column it reads and does not find
    (title, then isbn13, then the others in the order of the insert);
    nothing was sent to the store by then, and the tables and the
    sequences are as before. *)
Theorem X3_missing_book_column (row : Row) (w : World) (key : string) :
  first_missing row book_keys = Some key ->
  exists w',
    process_row row w = (Raise (KeyError key), w')
    /\ row !! key = None
    /\ executed (trace w') = executed (trace w)
    /\ current w' = current w /\ committed w' = committed w
    /\ authors_seq w' = authors_seq w /\ books_seq w' = books_seq w.
Proof.
  intros H. destruct (insert_book_missing row w key H) as (w' & Hb & Hrest).
  exists w'. split; [|exact Hrest].
  unfold process_row. now rewrite (bind_Raise _ _ _ _ _ Hb).
Qed.

(** X4: a row with its book columns but without a usable authors field
    (the column is missing, or the line was too short and the field is
    None) gets its book inserted and then fails, with KeyError or
    AttributeError: the book is pending, nothing of the row is
    committed, and closing the connection discards it. *)
Theorem X4_row_without_authors (row : Row) (w : World) (b : Z) (w1 : World) :
  insert_book row w = (Ok b, w1) ->
  (row !! "authors" = None \/ row !! "authors" = Some None) ->
  exists e,
    process_row row w = (Raise e, w1)
    /\ e = match row !! "authors" with
           | None => KeyError "authors"
           | Some _ => AttributeError "'NoneType' object has no attribute 'split'"
           end
    /\ length (t_books (current w1)) = S (length (t_books (current w)))
    /\ committed w1 = committed w
    /\ current (conn_close w1) = committed w.
Proof.
  intros Hb Hauthors.
  pose proof (insert_book_Ok _ _ _ _ Hb)
    as (? & ? & ? & ? & ? & ? & ? & _ & _ & _ & _ & _ & _ & _ & _ & Hc1 & Hd1 & _).
  eexists. split; [|split; [reflexivity|]].
  - unfold process_row. rewrite (bind_Ok _ _ _ _ _ Hb).
    destruct Hauthors as [E|E]; rewrite E.
    + now rewrite (bind_Raise _ _ _ _ _ (getitem_None _ _ w1 E)).
    + rewrite (bind_Ok _ _ _ _ _ (getitem_Some _ _ _ w1 E)). reflexivity.
  - rewrite Hc1. cbn. rewrite length_app, Hd1. cbn. split; [lia|auto].
Qed.

(** What the resolver can raise: only what the store refused. *)
Lemma get_or_create_author_raises (name : unicode) (w : World) (e : exn) (w' : World) :
  get_or_create_author name w = (Raise e, w') -> exists text, e = DatabaseError text.
Proof.
  unfold get_or_create_author, bind, print, execute, fetchone, commit, subscript0, ret, raise.
  cbn.
  destruct (db_error (current w) (SelectAuthor name)); [intros [= <- _]; eauto|].
  cbn. destruct (select_author name (current w)) as [|id0 ids]; cbn.
  - destruct (db_error (current w) (InsertAuthor name)); [intros [= <- _]; eauto|]. cbn.
    destruct (commit_error _); [intros [= <- _]; eauto|]. cbn. discriminate.
  - discriminate.
Qed.

Lemma link_authors_raises (b : Z) (names : list unicode) (w : World) (e : exn) (w' : World) :
  link_authors b names w = (Raise e, w') -> exists text, e = DatabaseError text.
Proof.
  revert w. induction names as [|n names IH]; intros w H; [discriminate|].
  cbn in H. apply bind_inv in H as [(a & w1 & _ & H)|(e' & H & [= ->])].
  - apply bind_inv in H as [([] & w2 & _ & H)|(e' & H & [= ->])].
    + eapply IH, H.
    + unfold execute in H. cbn in H.
      destruct (db_error (current w1) _); inversion H; eauto.
  - eapply get_or_create_author_raises, H.
Qed.

(** X5: the loop body raises only these: KeyError for a column of the CSV
    header that the row lacks, AttributeError when the authors field is
    None, and whatever the store raised.  In particular
    [cur.fetchone()[0]] never fails on None: each fetch follows an
    insert that returned its row. *)
Theorem X5_row_exceptions (row : Row) (w : World) (e : exn) (w' : World) :
  process_row row w = (Raise e, w') ->
  (exists key, e = KeyError key /\ key ∈ csv_columns /\ row !! key = None)
  \/ (e = AttributeError "'NoneType' object has no attribute 'split'"
      /\ row !! "authors" = Some None)
  \/ (exists text, e = DatabaseError text).
Proof.
  intros H.
  destruct (first_missing row book_keys) as [key|] eqn:Ekeys.
  - destruct (insert_book_missing row w key Ekeys) as (w1 & Hb & Hnone & _).
    unfold process_row in H. rewrite (bind_Raise _ _ _ _ _ Hb) in H.
    inversion H; subst. left. exists key. split; [reflexivity|]. split; [|exact Hnone].
    revert Ekeys. unfold book_keys, csv_columns. cbn [first_missing].
    repeat match goal with
           | |- context [match ?x with Some _ => _ | None => _ end] => destruct x
           end; intros [= <-]; set_solver.
  - destruct (insert_book_present row w Ekeys) as [(w1 & Hb)|(text & w1 & Hb & _)].
    + unfold process_row in H. rewrite (bind_Ok _ _ _ _ _ Hb) in H.
      destruct (row !! "authors") as [[s|]|] eqn:Ea.
      * rewrite (bind_Ok _ _ _ _ _ (getitem_Some _ _ _ w1 Ea)) in H.
        unfold split_authors in H. unfold bind at 1, ret at 1 in H.
        apply bind_inv in H as [([] & w2 & _ & H)|(e' & H & [= ->])].
        -- unfold commit in H. cbn in H.
           destruct (commit_error (current w2)); inversion H; eauto.
        -- right. right. eapply link_authors_raises, H.
      * rewrite (bind_Ok _ _ _ _ _ (getitem_Some _ _ _ w1 Ea)) in H.
        inversion H; subst. right. left. auto.
      * rewrite (bind_Raise _ _ _ _ _ (getitem_None _ _ w1 Ea)) in H.
        inversion H; subst. left. exists "authors". split; [reflexivity|].
        split; [|exact Ea]. unfold csv_columns. set_solver.
    + unfold process_row in H. rewrite (bind_Raise _ _ _ _ _ Hb) in H.
      inversion H; subst. eauto.
Qed.

(** ** Every mention ends up linked *)

Lemma author_lookup_ext (name : unicode) (t t' : Tables) :
  t_authors t' = t_authors t -> author_lookup name t' = author_lookup name t.
Proof. unfold author_lookup, select_author. now intros ->. Qed.

(** After the author loop each of its names resolves, and the identifier
    it resolves to is linked to the book. *)
Lemma link_authors_linked (b : Z) (names : list unicode) :
  forall (w w' : World),
    link_authors b names w = (Ok tt, w') ->
    forall n, n ∈ names ->
      exists a, author_lookup n (current w') = Some a
                /\ linked b a (t_book_author (current w')) = true.
Proof.
  induction names as [|m names IH]; intros w w' H n Hn; [inversion Hn|].
  cbn in H.
  apply bind_Ok_inv in H as (a & w1 & Hg & H).
  apply bind_Ok_inv in H as ([] & w2 & Hx & H).
  apply elem_of_cons in Hn as [->|Hn]; [|eapply IH; eassumption].
  destruct (get_or_create_author_lookup _ _ _ _ Hg) as [Hlk _].
  apply execute_link_Ok in Hx as (Ha2 & _ & Hl2 & _).
  apply link_authors_Ok in H as (_ & _ & Hpre & (added & Hadd & _) & _).
  exists a. split.
  - eapply author_lookup_app; [exact Hpre|].
    now rewrite (author_lookup_ext _ _ _ Ha2).
  - rewrite Hadd, linked_app, Hl2, linked_app.
    destruct (linked b a (t_book_author (current w1))); [reflexivity|].
    cbn. now rewrite !Z.eqb_refl.
Qed.

(** X6: when a row has been processed to its end, the store durably
    holds its book and, for every name the row mentions, an author of
    that name and the association of the book with the author the name
    resolves to. *)
Theorem X6_every_mention_linked (row : Row) (w w' : World) :
  process_row row w = (Ok tt, w') ->
  (exists bk, bk ∈ t_books (committed w') /\ books.book_id bk = books_seq w)
  /\ forall n, n ∈ row_authors row ->
       exists a,
         author_lookup n (committed w') = Some a
         /\ {| authors.author_id := a; authors.name := n |} ∈ t_authors (committed w')
         /\ linked (books_seq w) a (t_book_author (committed w')) = true.
Proof.
  intros H.
  pose proof (process_row_shape _ _ _ H)
    as (s0 & p1 & p2 & p3 & p4 & p5 & p6 & p7 & _ & _ & _ & _ & _ & _ & Hbooks & _).
  pose proof (process_row_Ok _ _ _ H) as (w1 & s & w2 & _ & Hs & Hl & _ & Hw').
  assert (Hd : committed w' = current w') by (subst w'; reflexivity).
  rewrite Hd. split.
  - eexists. rewrite Hbooks. split; [apply elem_of_app; right; left|reflexivity].
  - intros n Hn. unfold row_authors in Hn. rewrite Hs in Hn.
    destruct (link_authors_linked _ _ _ _ Hl n Hn) as (a & Hlk & Hlinked).
    exists a. subst w'. cbn. auto using author_lookup_Some.
Qed.

(** ** Running the loader again *)

(** The author loop over names that all resolve creates no author. *)
Lemma link_authors_known (b : Z) (names : list unicode) :
  forall (w w' : World),
    link_authors b names w = (Ok tt, w') ->
    (forall n, n ∈ names -> is_Some (author_lookup n (current w))) ->
    t_authors (current w') = t_authors (current w) /\ authors_seq w' = authors_seq w.
Proof.
  induction names as [|m names IH]; intros w w' H Hknown.
  - inversion H; subst. auto.
  - cbn in H.
    apply bind_Ok_inv in H as (a & w1 & Hg & H).
    apply bind_Ok_inv in H as ([] & w2 & Hx & H).
    apply get_or_create_author_Ok in Hg as [_ Hg].
    destruct (Hknown m ltac:(left)) as [a0 Ea]. rewrite Ea in Hg.
    destruct Hg as (_ & Hc1 & _ & Hs1 & _).
    apply execute_link_Ok in Hx as (Ha2 & _ & _ & _ & Hs2 & _).
    apply IH in H as [Ha' Hs'].
    + rewrite Ha', Ha2, Hc1, Hs', Hs2, Hs1. auto.
    + intros n Hn. rewrite (author_lookup_ext _ _ _ Ha2), Hc1. apply Hknown. now right.
Qed.

Lemma process_row_known (row : Row) (w w' : World) :
  process_row row w = (Ok tt, w') ->
  (forall n, n ∈ row_authors row -> is_Some (author_lookup n (current w))) ->
  t_authors (current w') = t_authors (current w) /\ authors_seq w' = authors_seq w.
Proof.
  intros H Hknown.
  apply process_row_Ok in H as (w1 & s & w2 & Hb & Hs & Hl & _ & ->).
  apply insert_book_Ok in Hb
    as (? & ? & ? & ? & ? & ? & ? & _ & _ & _ & _ & _ & _ & _ & _ & Hc1 & _ & Hs1 & _).
  apply link_authors_known in Hl as [Ha Hsq].
  - cbn. rewrite Ha, Hsq, Hc1, Hs1. auto.
  - intros n Hn. rewrite (author_lookup_ext _ (current w)) by (rewrite Hc1; reflexivity).
    apply Hknown. unfold row_authors. now rewrite Hs.
Qed.

Lemma process_row_knows (row : Row) (w w' : World) :
  process_row row w = (Ok tt, w') ->
  t_authors (current w) `prefix_of` t_authors (current w')
  /\ forall n, n ∈ row_authors row -> is_Some (author_lookup n (current w')).
Proof.
  intros H.
  pose proof (process_row_shape _ _ _ H)
    as (s0 & p1 & p2 & p3 & p4 & p5 & p6 & p7 & _ & _ & _ & _ & _ & _ & _ & _ & _ & Hpre).
  split; [exact Hpre|].
  apply process_row_Ok in H as (w1 & s & w2 & _ & Hs & Hl & _ & ->).
  intros n Hn. unfold row_authors in Hn. rewrite Hs in Hn.
  destruct (link_authors_linked _ _ _ _ Hl n Hn) as (a & Hlk & _).
  cbn. eauto.
Qed.

Lemma ingest_knows (rows : list Row) :
  forall (w w' : World),
    ingest (CsvRow <$> rows) w = (Ok tt, w') ->
    t_authors (current w) `prefix_of` t_authors (current w')
    /\ forall row, row ∈ rows ->
         forall n, n ∈ row_authors row -> is_Some (author_lookup n (current w')).
Proof.
  induction rows as [|row rows IH]; intros w w' H; cbn in H.
  - inversion H; subst. split; [reflexivity|]. intros row Hrow. inversion Hrow.
  - apply bind_Ok_inv in H as ([] & w1 & Hr & H).
    destruct (process_row_knows _ _ _ Hr) as [Hpre1 Hk1].
    destruct (IH _ _ H) as [Hpre Hk].
    split; [etransitivity; eassumption|].
    intros r Hr' n Hn. apply elem_of_cons in Hr' as [->|Hr']; [|eapply Hk; eassumption].
    destruct (Hk1 n Hn) as [a Ha]. exists a. eapply author_lookup_app; eassumption.
Qed.

Lemma ingest_known (rows : list Row) :
  forall (w w' : World),
    ingest (CsvRow <$> rows) w = (Ok tt, w') ->
    (forall row, row ∈ rows ->
       forall n, n ∈ row_authors row -> is_Some (author_lookup n (current w))) ->
    t_authors (current w') = t_authors (current w) /\ authors_seq w' = authors_seq w.
Proof.
  induction rows as [|row rows IH]; intros w w' H Hknown; cbn in H.
  - inversion H; subst. auto.
  - apply bind_Ok_inv in H as ([] & w1 & Hr & H).
    destruct (process_row_known _ _ _ Hr) as [Ha1 Hs1].
    { apply Hknown. left. }
    destruct (IH _ _ H) as [Ha Hs].
    { intros r Hr' n Hn. rewrite (author_lookup_ext _ _ _ Ha1). eapply Hknown; [right|]; eassumption. }
    rewrite Ha, Ha1, Hs, Hs1. auto.
Qed.

(** X7: a second run over the same rows creates no author: the authors
    table and its sequence are as the first run left them (the books
    table, in contrast, grows again). *)
Theorem X7_second_run_creates_no_author (rows : list Row) (w w' w'' : World) :
  ingest (CsvRow <$> rows) w = (Ok tt, w') ->
  ingest (CsvRow <$> rows) w' = (Ok tt, w'') ->
  t_authors (current w'') = t_authors (current w')
  /\ authors_seq w'' = authors_seq w'.
Proof.
  intros H1 H2.
  destruct (ingest_knows _ _ _ H1) as [_ Hk].
  exact (ingest_known _ _ _ H2 Hk).
Qed.

(** ** The unique constraint is kept *)

Lemma run_statement_unique (q : statement) (w : World) :
  unique_pairs (t_book_author (current w)) ->
  unique_pairs (t_book_author (current (run_statement q w)))
  /\ committed (run_statement q w) = committed w.
Proof.
  intros Hu. destruct q as [n|n|cols ps|b a]; cbn; try (split; [exact Hu|reflexivity]).
  destruct (linked b a (t_book_author (current w))) eqn:E; cbn; (split; [|reflexivity]);
    [exact Hu|].
  intros b' a'. rewrite count_pair_app.
  destruct (decide ((b', a') = (b, a))) as [[= -> ->]|Hne].
  - rewrite linked_count in E. rewrite count_pair_self.
    destruct (count_pair b a (t_book_author (current w))); [lia|discriminate].
  - rewrite count_pair_other by assumption. specialize (Hu b' a'). lia.
Qed.

#[local] Instance pairs_unique_preorder :
  PreOrder (fun w w' : World => pairs_unique w -> pairs_unique w').
Proof. split; [intros w H; exact H|intros w1 w2 w3 H12 H23 H; auto]. Qed.

Lemma pairs_unique_ingest (items : list csv_item) :
  respects (fun w w' => pairs_unique w -> pairs_unique w') (ingest items).
Proof.
  apply respects_ingest.
  - typeclasses eauto.
  - intros m w r w' H. inversion H; subst. auto.
  - intros q w r w' H [Hc Hd]. unfold execute in H. cbn in H.
    destruct (db_error (current w) q); inversion H; subst; [split; assumption|].
    destruct (run_statement_unique q (emit (Execute q) w) Hc) as [Hc' Hd'].
    split; [exact Hc'|]. rewrite Hd'. exact Hd.
  - intros w r w' H. unfold fetchone in H.
    destruct (cursor w); inversion H; subst; auto.
  - intros w r w' H [Hc Hd]. unfold commit in H. cbn in H.
    destruct (commit_error (current w)); inversion H; subst; split; assumption.
Qed.

Lemma handle_tables (r : result unit) (w : World) :
  committed (handle r w) = committed w /\ current (handle r w) = current w.
Proof. destruct r as [[]|[]]; auto. Qed.

(** X8: if no (book, author) pair is twice in the stored book_author
    table before the script runs, none is afterwards, whatever the
    server, the file and the store do and however the run ends. *)
Theorem X8_pairs_stay_unique (server : nat -> attempt_result) (file : csv_file) (w : World) :
  unique_pairs (t_book_author (committed w)) ->
  unique_pairs (t_book_author (committed (main server file w).2)).
Proof.
  intros Hu. unfold main.
  destruct (connect_to_database server 5 5 w) as [r wc] eqn:Hconn.
  destruct (connect_to_database_emits _ _ _ _ _ _ Hconn) as (delta & -> & _).
  destruct r; [|exact Hu|exact Hu].
  unfold ingest_and_teardown.
  destruct (load_csv file _) as [r w4] eqn:Hload. cbn.
  rewrite (proj1 (handle_tables r w4)).
  destruct file as [e|items]; cbn in Hload.
  - inversion Hload; subst. exact Hu.
  - apply pairs_unique_ingest in Hload. apply Hload. split; exact Hu.
Qed.

(** ** The run as a whole *)

#[local] Instance extends_with_preorder (P : event -> Prop) : PreOrder (extends_with P).
Proof.
  split.
  - intros w. exists []. split; [now rewrite app_nil_r|constructor].
  - intros w1 w2 w3 (d1 & E1 & H1) (d2 & E2 & H2). exists (d1 ++ d2).
    split; [now rewrite E2, E1, app_assoc|now apply Forall_app].
Qed.

(** The loop never closes the cursor or the connection. *)
Lemma ingest_no_close (items : list csv_item) :
  respects (extends_with not_a_close) (ingest items).
Proof.
  apply respects_ingest.
  - typeclasses eauto.
  - intros m w r w' H. inversion H; subst. exists [Output m].
    split; [reflexivity|]. repeat constructor; discriminate.
  - intros q w r w' H. exists [Execute q]. unfold execute in H. cbn in H.
    split; [|repeat constructor; discriminate].
    destruct (db_error (current w) q); inversion H; subst; [reflexivity|].
    destruct q; cbn; try reflexivity. now destruct (linked _ _ _).
  - intros w r w' H. exists []. unfold fetchone in H.
    split; [|constructor]. rewrite app_nil_r. destruct (cursor w); now inversion H.
  - intros w r w' H. exists [Commit]. unfold commit in H. cbn in H.
    split; [|repeat constructor; discriminate].
    destruct (commit_error (current w)); now inversion H.
Qed.

Lemma retried_no_close (delay : Z) (server : nat -> attempt_result) (from k : nat) :
  Forall not_a_close (flat_map (fun j => retried delay (refusal (server j))) (seq from k)).
Proof.
  revert from. induction k as [|k IH]; intros from; cbn; [constructor|].
  repeat (constructor; [split; discriminate|]). apply IH.
Qed.

(** What the two handlers print. *)
Lemma handle_trace (r : result unit) (w : World) :
  exists printed,
    trace (handle r w) = trace w ++ printed
    /\ Forall not_a_close printed
    /\ cursor (handle r w) = cursor w.
Proof.
  destruct r as [[]|e].
  - exists []. cbn. rewrite app_nil_r. repeat split. constructor.
  - destruct e; eexists; (split; [reflexivity|]); split; try reflexivity;
      repeat constructor; discriminate.
Qed.

(** X9: once one of the five attempts is accepted, the script ends with
    status 0 whatever the file holds and whatever the store refuses: it
    prints the closing line, closes the cursor and then the connection,
    each once and after everything else, and nothing is left pending.
    When no attempt is accepted the status is 1. *)
Theorem X9_exit_status_and_teardown (server : nat -> attempt_result) (file : csv_file) (w : World) :
  (forall k, (k < 5)%nat -> server k = Accepts ->
     exists body final,
       main server file w = (0, final)
       /\ trace final = trace w ++ body ++ [Output MsgClosing; CursorClose; ConnClose]
       /\ Forall not_a_close body
       /\ current final = committed final
       /\ cursor final = [])
  /\ ((forall k, (k < 5)%nat -> server k <> Accepts) -> (main server file w).1 = 1).
Proof.
  split.
  - intros k Hk Hacc. unfold main, connect_to_database. change (Z.to_nat 5) with 5%nat.
    destruct (connect_attempts_outcome server 5 5 4 (emit (Output MsgConnecting) w) eq_refl)
      as [(k0 & _ & _ & _ & ->)|(Hnone & _)].
    2:{ exfalso. apply (Hnone k); [lia|exact Hacc]. }
    unfold ingest_and_teardown.
    destruct (load_csv file _) as [r w4] eqn:Hload.
    assert (Hext : extends_with not_a_close
                     (emit (Output MsgLoading) (session_start
                        (emits (flat_map (fun j => retried 5 (refusal (server j))) (seq 0 k0)
                                ++ [Connect; Output MsgConnected])
                           (emit (Output MsgConnecting) w)))) w4).
    { destruct file as [e|items]; cbn in Hload.
      - inversion Hload; subst. reflexivity.
      - eapply ingest_no_close, Hload. }
    destruct Hext as (delta & Et & Hdelta).
    destruct (handle_trace r w4) as (printed & Eh & Hprinted & _).
    exists ([Output MsgConnecting]
            ++ flat_map (fun j => retried 5 (refusal (server j))) (seq 0 k0)
            ++ [Connect; Output MsgConnected; Output MsgLoading] ++ delta ++ printed).
    eexists. split; [reflexivity|].
    split; [|split; [|split; reflexivity]].
    + cbn. rewrite Eh, Et. cbn.
      repeat first [rewrite <- app_assoc|progress cbn [app]]. reflexivity.
    + constructor; [split; discriminate|].
      apply Forall_app. split; [apply retried_no_close|].
      repeat (constructor; [split; discriminate|]).
      apply Forall_app. split; [exact Hdelta|exact Hprinted].
  - intros Hall. unfold main, connect_to_database. change (Z.to_nat 5) with 5%nat.
    destruct (connect_attempts_outcome server 5 5 4 (emit (Output MsgConnecting) w) eq_refl)
      as [(k0 & Hk0 & Hacc & _)|(_ & ->)]; [|reflexivity].
    exfalso. apply (Hall k0); [lia|exact Hacc].
Qed.

(** X10: the script never removes or changes a stored row: after any run
    each table durably holds the rows it held before, in the same order,
    followed by the rows the run committed. *)
Theorem X10_stored_rows_are_kept (server : nat -> attempt_result) (file : csv_file) (w : World) :
  tables_le (committed w) (committed (main server file w).2).
Proof.
  unfold main.
  destruct (connect_to_database server 5 5 w) as [r wc] eqn:Hconn.
  destruct (connect_to_database_emits _ _ _ _ _ _ Hconn) as (delta & -> & _).
  destruct r; [|reflexivity|reflexivity].
  unfold ingest_and_teardown.
  destruct (load_csv file _) as [r w4] eqn:Hload. cbn.
  rewrite (proj1 (handle_tables r w4)).
  destruct file as [e|items]; cbn in Hload.
  - inversion Hload; subst. reflexivity.
  - apply keeps_ingest in Hload. apply Hload. apply settled_eq. reflexivity.
Qed.

(** X11: an exception the reader raises between two rows ends the loop
    like a failing row: it is printed by the handler of its kind, the
    rows before it stay committed, no later row is read, the cursor and
    the connection are closed and the status is 0. *)
Theorem X11_reader_failure (server : nat -> attempt_result)
    (pre post : list csv_item) (e : exn) (w wc w1 : World) :
  connect_to_database server 5 5 w = (Connected, wc) ->
  ingest pre (emit (Output MsgLoading) (session_start wc)) = (Ok tt, w1) ->
  exists final,
    main server (Opened (pre ++ CsvRaises e :: post)) w = (0, final)
    /\ trace final
       = trace w1
         ++ [Output (match e with
                     | FileNotFoundError text => MsgFileError text
                     | _ => MsgLoadError (str e)
                     end);
             Output MsgClosing; CursorClose; ConnClose]
    /\ executed (trace final) = executed (trace w1)
    /\ committed final = committed w1.
Proof.
  intros Hconn Hpre.
  unfold main. rewrite Hconn. unfold ingest_and_teardown, load_csv.
  rewrite (ingest_app _ (CsvRaises e :: post) _ _ Hpre). cbn [ingest raise].
  eexists. split; [reflexivity|].
  destruct e; cbn; rewrite <- !app_assoc; cbn;
    (split; [reflexivity|]); (split; [|reflexivity]);
    rewrite executed_app; cbn; now rewrite app_nil_r.
Qed.

(** ** Author mentions *)

Lemma length_split (sep : N) (s : unicode) :
  length (PyStr.split sep s) = S (count_char sep s).
Proof.
  induction s as [|c s IH]; [reflexivity|].
  cbn [PyStr.split count_char]. destruct (c =? sep)%N.
  - cbn. now rewrite IH.
  - pose proof (split_nonempty sep s) as Hne.
    destruct (PyStr.split sep s) as [|piece pieces]; [contradiction|].
    cbn in *. lia.
Qed.

(** X12: a row processed to its end has one author mention more than its
    authors field has commas: that many resolver calls and that many
    association inserts, so a field that ends in a comma, or has two in
    a row, mentions the empty name. *)
Theorem X12_mentions_per_row (row : Row) (w w' : World) :
  process_row row w = (Ok tt, w') ->
  exists s delta,
    row !! "authors" = Some (Some s)
    /\ trace w' = trace w ++ delta
    /\ length (resolutions delta) = S (count_char (ord ",") s)
    /\ length (association_books (executed delta)) = S (count_char (ord ",") s).
Proof.
  intros H.
  apply process_row_shape in H
    as (s & p1 & p2 & p3 & p4 & p5 & p6 & p7 & delta & added & Hs & Ht & Hres & Hex & _).
  exists s. eexists. split; [exact Hs|]. split; [exact Ht|].
  rewrite !executed_app, !resolutions_app. cbn [resolutions executed app association_books].
  rewrite !app_nil_r, Hres, Hex, length_fmap, length_replicate, length_split. auto.
Qed.

Lemma lstrip_all_space (s : unicode) :
  PyStr.all_space s = true -> PyStr.lstrip s = [].
Proof.
  induction s as [|c s IH]; [reflexivity|]. cbn.
  destruct (PyStr.isspace c); [exact IH|discriminate].
Qed.

Lemma all_space_app (l r : unicode) :
  PyStr.all_space l = true -> PyStr.all_space r = true -> PyStr.all_space (l ++ r) = true.
Proof.
  intros Hl Hr. induction l as [|c l IH]; [exact Hr|].
  cbn in Hl. apply andb_true_iff in Hl as [Hc Hl].
  change (PyStr.isspace c && PyStr.all_space (l ++ r) = true).
  now rewrite Hc, IH.
Qed.

(** A piece is trimmed to the empty name exactly when it is empty or all
    whitespace. *)
Lemma strip_empty (piece : unicode) :
  PyStr.strip piece = [] <-> PyStr.all_space piece = true.
Proof.
  split.
  - intros E. destruct (strip_spec piece) as (l & r & Hp & Hl & Hr & _).
    rewrite E in Hp. rewrite Hp. now apply all_space_app.
  - intros H. unfold PyStr.strip. now rewrite lstrip_all_space.
Qed.

(** The author rows the loop adds bear names of the loop. *)
Lemma link_authors_new_authors (b : Z) (names : list unicode) :
  forall (w w' : World),
    link_authors b names w = (Ok tt, w') ->
    exists added,
      t_authors (current w') = t_authors (current w) ++ added
      /\ Forall (fun r => authors.name r ∈ names) added.
Proof.
  induction names as [|m names IH]; intros w w' H.
  - inversion H; subst. exists []. split; [now rewrite app_nil_r|constructor].
  - cbn in H.
    apply bind_Ok_inv in H as (a & w1 & Hg & H).
    apply bind_Ok_inv in H as ([] & w2 & Hx & H).
    apply get_or_create_author_Ok in Hg as [_ Hg].
    apply execute_link_Ok in Hx as (Ha2 & _).
    destruct (IH _ _ H) as (added & Ha' & Hadded).
    assert (Hrest : Forall (fun r => authors.name r ∈ m :: names) added).
    { eapply Forall_impl; [exact Hadded|]. intros r Hr. now right. }
    destruct (author_lookup m (current w)).
    + destruct Hg as (_ & Hc1 & _). exists added.
      split; [now rewrite Ha', Ha2, Hc1|exact Hrest].
    + destruct Hg as (_ & Hc1 & _).
      exists ({| authors.author_id := a; authors.name := m |} :: added).
      split; [rewrite Ha', Ha2, Hc1; cbn; now rewrite <- app_assoc|].
      constructor; [left|exact Hrest].
Qed.

(** X13: the loop only resolves, and so only ever stores, author names
    that neither begin nor end with a whitespace character, whatever
    Unicode text the field holds: this holds of every name the resolver
    is called with for a row processed to its end and of every authors
    row the row adds.  The empty name is resolved exactly when a piece of
    the field, between two commas or at an end, is empty or all
    whitespace. *)
Theorem X13_only_trimmed_names (row : Row) (w w' : World) :
  process_row row w = (Ok tt, w') ->
  exists s delta added,
    row !! "authors" = Some (Some s)
    /\ trace w' = trace w ++ delta
    /\ Forall (fun n => PyStr.starts_with_space n = false
                        /\ PyStr.ends_with_space n = false) (resolutions delta)
    /\ t_authors (current w') = t_authors (current w) ++ added
    /\ Forall (fun r => PyStr.starts_with_space (authors.name r) = false
                        /\ PyStr.ends_with_space (authors.name r) = false) added
    /\ ([] ∈ resolutions delta
        <-> exists piece, piece ∈ PyStr.split (ord ",") s /\ PyStr.all_space piece = true).
Proof.
  intros H.
  pose proof (process_row_shape _ _ _ H)
    as (s & p1 & p2 & p3 & p4 & p5 & p6 & p7 & delta & links & Hs & Ht & Hres & _).
  apply process_row_Ok in H as (w1 & s' & w2 & Hb & Hs' & Hl & _ & ->).
  rewrite Hs in Hs'. injection Hs' as <-.
  apply insert_book_Ok in Hb
    as (? & ? & ? & ? & ? & ? & ? & _ & _ & _ & _ & _ & _ & _ & _ & Hc1 & _).
  destruct (link_authors_new_authors _ _ _ _ Hl) as (added & Ha & Hadded).
  assert (Htrim : forall n : unicode, n ∈ PyStr.strip <$> PyStr.split (ord ",") s ->
            PyStr.starts_with_space n = false /\ PyStr.ends_with_space n = false).
  { intros n Hn. apply list_elem_of_fmap in Hn as (piece & -> & _).
    destruct (strip_spec piece) as (l & r & _ & _ & _ & Hh & He). auto. }
  exists s. eexists. exists added.
  split; [exact Hs|]. split; [exact Ht|].
  rewrite !resolutions_app. cbn [resolutions app]. rewrite app_nil_r, Hres.
  split; [apply Forall_forall; exact Htrim|].
  split; [cbn; rewrite Ha, Hc1; reflexivity|].
  split.
  - eapply Forall_impl; [exact Hadded|]. intros r Hr. now apply Htrim.
  - rewrite list_elem_of_fmap. split.
    + intros (piece & E & Hin). exists piece. split; [exact Hin|].
      apply strip_empty. now rewrite <- E.
    + intros (piece & Hin & Hsp). exists piece. split; [|exact Hin].
      symmetry. now apply strip_empty.
Qed.

(** ** Which files load cleanly *)

Lemma process_row_readable (row : Row) (w w' : World) :
  process_row row w = (Ok tt, w') -> readable row.
Proof.
  intros H. apply process_row_Ok in H as (w1 & s & w2 & Hb & Hs & _).
  apply insert_book_Ok in Hb
    as (? & ? & ? & ? & ? & ? & ? & E1 & E2 & E3 & E4 & E5 & E6 & E7 & _).
  split; [|eauto]. unfold csv_columns.
  repeat (constructor; [eexists; eassumption|]). constructor.
Qed.

(** X14: the loop ends normally only on items that are all rows with the
    eight columns and a text authors field; with a store that refuses
    nothing it does end normally on every such input. *)
Theorem X14_clean_run_iff_readable (items : list csv_item) (w : World) :
  (forall w', ingest items w = (Ok tt, w') ->
     exists rows, items = CsvRow <$> rows /\ Forall readable rows)
  /\ ((forall t q, db_error t q = None) -> (forall t, commit_error t = None) ->
      forall rows, items = CsvRow <$> rows -> Forall readable rows ->
        exists w', ingest items w = (Ok tt, w')).
Proof.
  split.
  - revert w. induction items as [|[row|e] items IH]; intros w w' H; cbn in H.
    + exists []. split; [reflexivity|constructor].
    + apply bind_Ok_inv in H as ([] & w1 & Hr & H).
      destruct (IH _ _ H) as (rows & -> & Hrows).
      exists (row :: rows). split; [reflexivity|].
      constructor; [eapply process_row_readable; eassumption|exact Hrows].
    + discriminate.
  - intros Hq Hc rows -> Hrows. now apply ingest_rows_returns.
Qed.

(** ** Rows without a new author *)

Lemma committed_insert_book (row : Row) :
  respects (fun w w' => committed w' = committed w) (insert_book row).
Proof.
  assert (HPO : PreOrder (fun w w' : World => committed w' = committed w)).
  { split; [intros w; reflexivity|intros w1 w2 w3 H12 H23; congruence]. }
  apply respects_insert_book.
  - exact HPO.
  - intros m w r w' H. now inversion H.
  - intros q w r w' H. unfold execute in H. cbn in H.
    destruct (db_error (current w) q); inversion H; subst; [reflexivity|].
    exact (proj1 (run_statement_grows q (emit (Execute q) w))).
  - intros w r w' H. unfold fetchone in H. destruct (cursor w); now inversion H.
Qed.

(** A call for a stored name commits nothing and creates nothing,
    however it ends. *)
Lemma get_or_create_author_hit (name : unicode) (w : World) (r : result Z) (w' : World) :
  is_Some (author_lookup name (current w)) ->
  get_or_create_author name w = (r, w') ->
  committed w' = committed w /\ current w' = current w.
Proof.
  intros [a Ha].
  unfold get_or_create_author, bind, print, execute, fetchone, commit, subscript0, ret, raise.
  unfold author_lookup in Ha. cbn.
  destruct (db_error (current w) (SelectAuthor name)); [intros [= <- <-]; auto|].
  cbn. destruct (select_author name (current w)) as [|id0 ids]; [discriminate|].
  cbn. intros [= <- <-]. auto.
Qed.

Lemma link_authors_hit (b : Z) (names : list unicode) :
  forall (w : World) (r : result unit) (w' : World),
    (forall n, n ∈ names -> is_Some (author_lookup n (current w))) ->
    link_authors b names w = (r, w') ->
    committed w' = committed w.
Proof.
  induction names as [|m names IH]; intros w r w' Hknown H.
  - now inversion H.
  - cbn in H. apply bind_inv in H as [(a & w1 & Hg & H)|(e & Hg & _)].
    + destruct (get_or_create_author_hit _ _ _ _ (Hknown m ltac:(left)) Hg) as [Hd1 Hc1].
      apply bind_inv in H as [([] & w2 & Hx & H)|(e & Hx & _)].
      * apply execute_link_Ok in Hx as (Ha2 & _ & _ & Hd2 & _).
        assert (Hknown2 : forall n, n ∈ names -> is_Some (author_lookup n (current w2))).
        { intros n Hn. rewrite (author_lookup_ext _ _ _ Ha2), Hc1. apply Hknown. now right. }
        rewrite (IH _ _ _ Hknown2 H), Hd2, Hd1. reflexivity.
      * unfold execute in Hx. cbn in Hx.
        destruct (db_error (current w1) _); inversion Hx; subst. exact Hd1.
    + now destruct (get_or_create_author_hit _ _ _ _ (Hknown m ltac:(left)) Hg).
Qed.

(** X15: a row that mentions only authors the store already has is all
    or nothing: either it is processed to its end and everything of it
    is committed, or it fails and the committed tables are exactly as
    before the row. *)
Theorem X15_row_without_new_author (row : Row) (w : World) (r : result unit) (w' : World) :
  (forall n, n ∈ row_authors row -> is_Some (author_lookup n (current w))) ->
  process_row row w = (r, w') ->
  (r = Ok tt /\ committed w' = current w')
  \/ (exists e, r = Raise e /\ committed w' = committed w).
Proof.
  intros Hknown H. unfold process_row in H.
  apply bind_inv in H as [(b & w1 & Hb & H)|(e & Hb & ->)].
  2:{ right. exists e. split; [reflexivity|]. eapply committed_insert_book, Hb. }
  pose proof (committed_insert_book row _ _ _ Hb) as Hd1.
  apply insert_book_Ok in Hb
    as (? & ? & ? & ? & ? & ? & ? & _ & _ & _ & _ & _ & _ & _ & _ & Hc1 & _).
  apply bind_inv in H as [(f & w1' & Hf & H)|(e & Hf & ->)].
  2:{ right. exists e. split; [reflexivity|].
      unfold getitem in Hf. destruct (row !! "authors"); inversion Hf; subst. exact Hd1. }
  apply getitem_Ok in Hf as [Ea ->].
  apply bind_inv in H as [(names & w3 & Hn & H)|(e & Hn & ->)].
  2:{ right. exists e. split; [reflexivity|].
      destruct f; inversion Hn; subst. exact Hd1. }
  destruct f as [s|]; [|discriminate]. injection Hn as <- <-.
  assert (Hknown1 : forall n, n ∈ PyStr.strip <$> PyStr.split (ord ",") s ->
                              is_Some (author_lookup n (current w1))).
  { intros n Hin. rewrite (author_lookup_ext _ (current w)) by (rewrite Hc1; reflexivity).
    apply Hknown. unfold row_authors. now rewrite Ea. }
  apply bind_inv in H as [([] & w2 & Hl & H)|(e & Hl & ->)].
  2:{ right. exists e. split; [reflexivity|].
      rewrite (link_authors_hit _ _ _ _ _ Hknown1 Hl). exact Hd1. }
  pose proof (link_authors_hit _ _ _ _ _ Hknown1 Hl) as Hd2.
  unfold commit in H. cbn in H.
  destruct (commit_error (current w2)); inversion H; subst.
  - right. eexists. split; [reflexivity|]. cbn. congruence.
  - left. auto.
Qed.

(** ** The books table after a clean run *)

Lemma process_row_book (row : Row) (w w' : World) :
  process_row row w = (Ok tt, w') ->
  t_books (current w') = t_books (current w) ++ [stored_book (books_seq w) row]
  /\ books_seq w' = books_seq w + 1.
Proof.
  intros H. apply process_row_Ok in H as (w1 & s & w2 & Hb & _ & Hl & _ & ->).
  apply insert_book_Ok in Hb
    as (? & ? & ? & ? & ? & ? & ? & E1 & E2 & E3 & E4 & E5 & E6 & E7 & _ & Hc1 & _ & _ & Hs1 & _).
  apply link_authors_Ok in Hl as (Hbk & Hsq & _).
  cbn. rewrite Hbk, Hsq, Hc1, Hs1. cbn.
  unfold stored_book. rewrite E1, E2, E3, E4, E5, E6, E7. auto.
Qed.

(** X16: after a run in which every row was processed to its end, the
    books table holds what it held before followed by one row per CSV
    row, in the order of the file, with the fields of that row and with
    consecutive identifiers from the sequence. *)
Theorem X16_books_in_file_order (rows : list Row) (w w' : World) :
  ingest (CsvRow <$> rows) w = (Ok tt, w') ->
  t_books (current w')
  = t_books (current w) ++ imap (fun i row => stored_book (books_seq w + Z.of_nat i) row) rows
  /\ books_seq w' = books_seq w + Z.of_nat (length rows).
Proof.
  revert w. induction rows as [|row rows IH]; intros w H; cbn in H.
  - inversion H; subst. cbn. rewrite app_nil_r. split; [reflexivity|lia].
  - apply bind_Ok_inv in H as ([] & w1 & Hr & H).
    destruct (process_row_book _ _ _ Hr) as [Hb1 Hs1].
    destruct (IH _ H) as [Hb Hs].
    rewrite Hb, Hb1, Hs, Hs1, <- app_assoc. cbn [imap app length]. split; [|lia].
    rewrite Z.add_0_r. do 2 f_equal.
    apply imap_ext. intros i r _. cbn. f_equal. lia.
Qed.

End Loader.

(** ** Sample runs *)

Lemma wf_fresh_world : wf fresh_world.
Proof. split; cbn; constructor. Qed.

Lemma sample_row_readable (authors : unicode) : readable (sample_row authors).
Proof.
  split.
  - unfold csv_columns. repeat (constructor; [eexists; vm_compute; reflexivity|]). constructor.
  - exists authors. vm_compute. reflexivity.
Qed.

Lemma accept_all_accepts (t : Tables) (q : statement) : accept_all t q = None.
Proof. reflexivity. Qed.

Lemma commit_ok_accepts (t : Tables) : commit_ok t = None.
Proof. reflexivity. Qed.

(** A row with the authors "A,B" in a store that refuses the author "B":
    the row fails at the second author and never reaches its own commit,
    yet after the run the store holds the book, and the author "A", and
    no association for the book.  The book was committed by the
    resolver's commit for "A", before the end of the row and apart from
    its associations. *)
Lemma C1_book_committed_by_resolver :
  exists final,
    main (refuse_author (chars "B")) commit_ok always_accepts
         (Opened [CsvRow (sample_row (chars "A,B"))]) fresh_world = (0, final)
    /\ book_author.book_id <$> t_book_author (committed final) = []
    /\ books.book_id <$> t_books (committed final) = [1]
    /\ t_authors (committed final) = [{| authors.author_id := 1; authors.name := chars "A" |}]
    /\ executed (trace final)
       = [InsertBook books_columns
            [Some (chars "9780439023480"); Some (chars "2008.0"); Some (chars "The Hunger Games"); Some (chars "4.34");
             Some (chars "4780653"); Some (chars "https://images/m.jpg"); Some (chars "https://images/s.jpg")];
          SelectAuthor (chars "A"); InsertAuthor (chars "A"); InsertBookAuthor 1 1;
          SelectAuthor (chars "B"); InsertAuthor (chars "B")].
Proof.
  eexists. split; [vm_compute; reflexivity|].
  vm_compute. repeat split; reflexivity.
Qed.

Lemma C1_commit_boundaries_witness :
  (exists w',
      process_row accept_all commit_ok (sample_row (chars "Suzanne Collins")) fresh_world = (Ok tt, w')
      /\ committed w' = current w')
  /\ (exists wb w1 e w2,
         insert_book (refuse_author (chars "B")) (sample_row (chars "A,B")) fresh_world = (Ok 1, wb)
         /\ get_or_create_author (refuse_author (chars "B")) commit_ok (chars "A") wb = (Ok 1, w1)
         /\ (execute (refuse_author (chars "B")) (InsertBookAuthor 1 1) ;;
             link_authors (refuse_author (chars "B")) commit_ok 1 [chars "B"] ;;
             commit commit_ok ;;
             ingest (refuse_author (chars "B")) commit_ok []) w1 = (Raise e, w2)
         /\ {| authors.author_id := 1; authors.name := chars "A" |} ∈ t_authors (committed w2)
         /\ tables_le (current wb) (committed w2)).
Proof.
  split.
  - eexists. split; [vm_compute; reflexivity|].
    apply (proj1 (C1_commit_boundaries accept_all commit_ok)
                 (sample_row (chars "Suzanne Collins")) fresh_world).
    vm_compute. reflexivity.
  - do 4 eexists.
    split; [vm_compute; reflexivity|]. split; [vm_compute; reflexivity|].
    split; [vm_compute; reflexivity|].
    eapply (proj2 (proj2 (C1_commit_boundaries (refuse_author (chars "B")) commit_ok))
                  (chars "A") _ 1 _ 1 [chars "B"] []).
    + vm_compute. reflexivity.
    + vm_compute. reflexivity.
    + vm_compute. reflexivity.
Defined.

Lemma C2_connect_retry_budget_witness :
  (exists k0 delta,
      (k0 <= 4)%nat
      /\ main accept_all commit_ok fifth_accepts (Opened []) fresh_world
         = ingest_and_teardown accept_all commit_ok (Opened []) (emits delta fresh_world)
      /\ sleeps delta = replicate k0 5)
  /\ (exists delta,
         main accept_all commit_ok never_accepts (Opened []) fresh_world
         = (1, emits delta fresh_world)
         /\ sleeps delta = [5; 5; 5; 5]).
Proof.
  split.
  - destruct (proj1 (C2_connect_retry_budget accept_all commit_ok fifth_accepts
                       (Opened []) fresh_world) 4%nat)
      as (k0 & delta & Hle & _ & _ & Hmain & Hsleeps); [lia|reflexivity|].
    exists k0, delta. auto.
  - destruct (proj2 (C2_connect_retry_budget accept_all commit_ok never_accepts
                       (Opened []) fresh_world))
      as (delta & _ & Hmain & Hsleeps & _); [intros k _; discriminate|].
    exists delta. auto.
Defined.

Lemma C3_row_counts_witness :
  exists w',
    ingest accept_all commit_ok
      (CsvRow <$> [sample_row (chars "Jane Doe, John Smith"); sample_row (chars "Jane Doe, Jane Doe")])
      fresh_world = (Ok tt, w')
    /\ length (t_books (committed w')) = 2%nat
    /\ length (t_book_author (committed w')) = 3%nat.
Proof.
  pose proof (C3_row_counts accept_all commit_ok
                [sample_row (chars "Jane Doe, John Smith"); sample_row (chars "Jane Doe, Jane Doe")]
                fresh_world wf_fresh_world eq_refl) as [Hreturns Hcounts].
  destruct (Hreturns accept_all_accepts commit_ok_accepts
              ltac:(constructor; [apply sample_row_readable|];
                    constructor; [apply sample_row_readable|constructor]))
    as (w' & H).
  exists w'. split; [exact H|].
  destruct (Hcounts w' H) as (Hb & Hl & _).
  split; [exact Hb|]. rewrite Hl. vm_compute. reflexivity.
Defined.

Lemma C4_author_resolution_idempotent_witness :
  exists id w1 w2,
    get_or_create_author accept_all commit_ok (chars "Jane Doe") fresh_world = (Ok id, w1)
    /\ get_or_create_author accept_all commit_ok (chars "Jane Doe") w1 = (Ok id, w2)
    /\ t_authors (current w2) = [{| authors.author_id := id; authors.name := chars "Jane Doe" |}].
Proof.
  pose proof (C4_author_resolution_idempotent accept_all commit_ok (chars "Jane Doe") fresh_world)
    as (Hreturns & Htwice & _ & _).
  destruct (Hreturns accept_all_accepts commit_ok_accepts) as (id & w1 & w2 & H1 & H2).
  exists id, w1, w2. split; [exact H1|]. split; [exact H2|].
  destruct (Htwice id w1 id w2 H1 H2) as (_ & _ & _ & _ & _ & Hrows & _).
  exact Hrows.
Defined.

Lemma C5_association_inserted_once_witness :
  exists w1 w2,
    execute accept_all (InsertBookAuthor 1 1) fresh_world = (Ok tt, w1)
    /\ execute accept_all (InsertBookAuthor 1 1) w1 = (Ok tt, w2)
    /\ count_pair 1 1 (t_book_author (current w2)) = 1%nat.
Proof.
  eexists. eexists. split; [vm_compute; reflexivity|]. split; [vm_compute; reflexivity|].
  refine (proj1 (proj2 (proj1 (C5_association_inserted_once accept_all commit_ok 1 1
                                 fresh_world _) _ _ _ _))).
  - intros b' a'. cbn. lia.
  - vm_compute. reflexivity.
  - vm_compute. reflexivity.
Defined.

Lemma C6_authors_split_and_trimmed_witness :
  (exists w' delta,
      process_row accept_all commit_ok (sample_row (chars "Jane Doe, John Smith")) fresh_world
      = (Ok tt, w')
      /\ trace w' = trace fresh_world ++ delta
      /\ resolutions delta = [chars "Jane Doe"; chars "John Smith"]
      /\ length (links_of (books_seq fresh_world) (t_book_author (current w'))) = 2%nat)
  /\ (exists w' delta,
         process_row accept_all commit_ok (sample_row wide_field) fresh_world = (Ok tt, w')
         /\ trace w' = trace fresh_world ++ delta
         /\ resolutions delta = [chars "Ann"; [1093%N]]).
Proof.
  split.
  - apply (proj2 (proj2 (proj2 (C6_authors_split_and_trimmed accept_all commit_ok)))).
    + apply accept_all_accepts.
    + apply commit_ok_accepts.
    + apply wf_fresh_world.
    + apply sample_row_readable.
    + vm_compute. reflexivity.
  - eexists.
    destruct (proj1 (proj2 (proj2 (C6_authors_split_and_trimmed accept_all commit_ok)))
                (sample_row wide_field) fresh_world
                (process_row accept_all commit_ok (sample_row wide_field) fresh_world).2
                ltac:(vm_compute; reflexivity))
      as (s & delta & Hs & Ht & Hres).
    exists delta. split; [vm_compute; reflexivity|]. split; [exact Ht|].
    rewrite Hres. vm_compute in Hs. injection Hs as <-. vm_compute. reflexivity.
Defined.

Lemma C7_row_failure_aborts_loop_witness :
  exists final,
    main (refuse_author (chars "B")) commit_ok always_accepts
         (Opened ([CsvRow (sample_row (chars "A"))]
                  ++ CsvRow (sample_row (chars "A,B")) :: [CsvRow (sample_row (chars "C"))]))
         fresh_world = (0, final)
    /\ books.book_id <$> t_books (committed final) = [1]
    /\ resolutions (trace final) = [chars "A"; chars "A"; chars "B"].
Proof.
  destruct (C7_row_failure_aborts_loop (refuse_author (chars "B")) commit_ok always_accepts
              [CsvRow (sample_row (chars "A"))] [CsvRow (sample_row (chars "C"))] (sample_row (chars "A,B"))
              fresh_world
              (connect_to_database always_accepts 5 5 fresh_world).2
              (ingest (refuse_author (chars "B")) commit_ok [CsvRow (sample_row (chars "A"))]
                 (emit (Output MsgLoading)
                    (session_start (connect_to_database always_accepts 5 5 fresh_world).2))).2
              (process_row (refuse_author (chars "B")) commit_ok (sample_row (chars "A,B"))
                 (ingest (refuse_author (chars "B")) commit_ok [CsvRow (sample_row (chars "A"))]
                    (emit (Output MsgLoading)
                       (session_start (connect_to_database always_accepts 5 5 fresh_world).2))).2).2
              (DatabaseError "value rejected"))
    as (final & Hmain & Htrace & Hcommitted & _).
  - vm_compute. reflexivity.
  - vm_compute. reflexivity.
  - vm_compute. reflexivity.
  - exists final. split; [exact Hmain|]. split.
    + rewrite Hcommitted. vm_compute. reflexivity.
    + rewrite Htrace. vm_compute. reflexivity.
Defined.

Lemma C8_missing_file_witness :
  exists delta,
    main accept_all commit_ok always_accepts
         (OpenRaises (FileNotFoundError "[Errno 2] No such file or directory: '/app/books.csv'"))
         fresh_world
    = (0, {| committed := empty_tables; current := empty_tables;
             authors_seq := 1; books_seq := 1; cursor := [];
             trace := delta
                      ++ [Output MsgLoading;
                          Output (MsgFileError
                                   "[Errno 2] No such file or directory: '/app/books.csv'");
                          Output MsgClosing; CursorClose; ConnClose] |}).
Proof.
  destruct (C8_missing_file accept_all commit_ok always_accepts
              "[Errno 2] No such file or directory: '/app/books.csv'" fresh_world
              (connect_to_database always_accepts 5 5 fresh_world).2)
    as (delta & _ & Hmain); [vm_compute; reflexivity|].
  exists delta. exact Hmain.
Defined.

Lemma C9_book_insert_verbatim_witness :
  exists w1,
    insert_book accept_all (sample_row (chars "Suzanne Collins")) fresh_world = (Ok 1, w1)
    /\ t_books (current w1)
       = [{| books.book_id := 1;
             books.isbn13 := Some (chars "9780439023480");
             books.publication_year := Some (chars "2008.0");
             books.title := Some (chars "The Hunger Games");
             books.rating_avg := Some (chars "4.34");
             books.rating_count := Some (chars "4780653");
             books.image_url := Some (chars "https://images/m.jpg");
             books.image_small_url := Some (chars "https://images/s.jpg") |}].
Proof.
  pose proof (C9_book_insert_verbatim accept_all commit_ok (sample_row (chars "Suzanne Collins"))
                fresh_world) as (Hreturns & Hinsert & _).
  destruct (Hreturns accept_all_accepts (proj1 (sample_row_readable (chars "Suzanne Collins"))))
    as (w1 & H).
  exists w1. split; [exact H|].
  destruct (Hinsert _ _ H)
    as (p1 & p2 & p3 & p4 & p5 & p6 & p7 & E1 & E2 & E3 & E4 & E5 & E6 & E7 & _ & _ & Hrows).
  rewrite Hrows.
  vm_compute in E1, E2, E3, E4, E5, E6, E7.
  inversion E1; inversion E2; inversion E3; inversion E4; inversion E5; inversion E6;
    inversion E7; subst. reflexivity.
Defined.

Lemma C10_empty_authors_field_witness :
  exists w' delta a,
    process_row accept_all commit_ok (sample_row (chars "")) fresh_world = (Ok tt, w')
    /\ trace w' = trace fresh_world ++ delta
    /\ resolutions delta = [chars ""]
    /\ author_lookup (chars "") (current w') = Some a
    /\ t_authors (current w') = [{| authors.author_id := 1; authors.name := chars "" |}]
    /\ t_book_author (current w')
       = [{| book_author.book_id := 1; book_author.author_id := a |}].
Proof.
  apply (C10_empty_authors_field accept_all commit_ok (sample_row (chars "")) fresh_world).
  - apply accept_all_accepts.
  - apply commit_ok_accepts.
  - apply wf_fresh_world.
  - apply sample_row_readable.
  - vm_compute. reflexivity.
Defined.


Lemma X2_connect_returns_none_witness :
  connect_to_database always_accepts 0 5 fresh_world
  = (FellThrough, emit (Output MsgConnecting) fresh_world).
Proof.
  apply (proj2 (X2_connect_returns_none always_accepts 0 5 fresh_world)). lia.
Defined.

Lemma X3_missing_book_column_witness :
  exists w',
    process_row accept_all commit_ok untitled_row fresh_world = (Raise (KeyError "title"), w')
    /\ executed (trace w') = [].
Proof.
  destruct (X3_missing_book_column accept_all commit_ok untitled_row fresh_world "title")
    as (w' & Hrun & _ & Hex & _); [vm_compute; reflexivity|].
  exists w'. split; [exact Hrun|exact Hex].
Defined.

Lemma X4_row_without_authors_witness :
  exists w1,
    process_row accept_all commit_ok short_row fresh_world
    = (Raise (AttributeError "'NoneType' object has no attribute 'split'"), w1)
    /\ length (t_books (current w1)) = 1%nat
    /\ committed w1 = empty_tables
    /\ current (conn_close w1) = empty_tables.
Proof.
  destruct (X4_row_without_authors accept_all commit_ok short_row fresh_world 1
              (insert_book accept_all short_row fresh_world).2)
    as (e & Hrun & He & Hlen & Hd & Hclose).
  - vm_compute. reflexivity.
  - right. vm_compute. reflexivity.
  - eexists. split; [rewrite Hrun, He; vm_compute; reflexivity|]. auto.
Defined.

Lemma X5_row_exceptions_witness :
  exists key, key ∈ csv_columns /\ authorless_row !! key = None.
Proof.
  destruct (X5_row_exceptions accept_all commit_ok authorless_row fresh_world
              (KeyError "authors")
              (process_row accept_all commit_ok authorless_row fresh_world).2)
    as [(key & _ & Hin & Hnone)|[[He _]|[text He]]].
  - vm_compute. reflexivity.
  - exists key. split; [exact Hin|exact Hnone].
  - discriminate.
  - discriminate.
Defined.

Lemma X6_every_mention_linked_witness :
  exists w' a,
    process_row accept_all commit_ok (sample_row (chars "Jane Doe, John Smith")) fresh_world
    = (Ok tt, w')
    /\ author_lookup (chars "John Smith") (committed w') = Some a
    /\ linked 1 a (t_book_author (committed w')) = true.
Proof.
  eexists. 
  destruct (proj2 (X6_every_mention_linked accept_all commit_ok
                     (sample_row (chars "Jane Doe, John Smith")) fresh_world
                     (process_row accept_all commit_ok
                        (sample_row (chars "Jane Doe, John Smith")) fresh_world).2
                     ltac:(vm_compute; reflexivity))
              (chars "John Smith"))
    as (a & Hlk & _ & Hlinked).
  - vm_compute. right. left.
  - exists a. split; [vm_compute; reflexivity|]. split; [exact Hlk|exact Hlinked].
Defined.

Lemma X7_second_run_creates_no_author_witness :
  exists w' w'',
    ingest accept_all commit_ok (CsvRow <$> [sample_row (chars "Jane Doe, John Smith")]) fresh_world
    = (Ok tt, w')
    /\ ingest accept_all commit_ok (CsvRow <$> [sample_row (chars "Jane Doe, John Smith")]) w'
       = (Ok tt, w'')
    /\ t_authors (current w'') = t_authors (current w')
    /\ length (t_books (current w'')) = 2%nat.
Proof.
  eexists. eexists. split; [vm_compute; reflexivity|]. split; [vm_compute; reflexivity|].
  split.
  - refine (proj1 (X7_second_run_creates_no_author accept_all commit_ok
                     [sample_row (chars "Jane Doe, John Smith")] fresh_world _ _ _ _));
      vm_compute; reflexivity.
  - vm_compute. reflexivity.
Defined.

Lemma X8_pairs_stay_unique_witness :
  unique_pairs
    (t_book_author
       (committed (main accept_all commit_ok always_accepts
                     (Opened [CsvRow (sample_row (chars "Jane Doe, Jane Doe"))]) fresh_world).2)).
Proof.
  apply X8_pairs_stay_unique. intros b a. cbn. lia.
Defined.

Lemma X9_exit_status_and_teardown_witness :
  (exists final,
      main (refuse_author (chars "B")) commit_ok fifth_accepts
           (Opened [CsvRow (sample_row (chars "A,B"))]) fresh_world = (0, final)
      /\ current final = committed final)
  /\ (main accept_all commit_ok never_accepts (Opened []) fresh_world).1 = 1.
Proof.
  split.
  - destruct (proj1 (X9_exit_status_and_teardown (refuse_author (chars "B")) commit_ok fifth_accepts
                       (Opened [CsvRow (sample_row (chars "A,B"))]) fresh_world) 4%nat)
      as (body & final & Hmain & _ & _ & Hsync & _); [lia|reflexivity|].
    exists final. split; [exact Hmain|exact Hsync].
  - apply (proj2 (X9_exit_status_and_teardown accept_all commit_ok never_accepts
                    (Opened []) fresh_world)).
    intros k _. discriminate.
Defined.

Lemma X11_reader_failure_witness :
  exists final,
    main accept_all commit_ok always_accepts
         (Opened ([CsvRow (sample_row (chars "Jane Doe"))]
                  ++ CsvRaises (CsvError "line contains NUL") :: [CsvRow (sample_row (chars "B"))]))
         fresh_world = (0, final)
    /\ length (t_books (committed final)) = 1%nat.
Proof.
  destruct (X11_reader_failure accept_all commit_ok always_accepts
              [CsvRow (sample_row (chars "Jane Doe"))] [CsvRow (sample_row (chars "B"))]
              (CsvError "line contains NUL") fresh_world
              (connect_to_database always_accepts 5 5 fresh_world).2
              (ingest accept_all commit_ok [CsvRow (sample_row (chars "Jane Doe"))]
                 (emit (Output MsgLoading)
                    (session_start (connect_to_database always_accepts 5 5 fresh_world).2))).2)
    as (final & Hmain & _ & _ & Hd).
  - vm_compute. reflexivity.
  - vm_compute. reflexivity.
  - exists final. split; [exact Hmain|]. rewrite Hd. vm_compute. reflexivity.
Defined.

Lemma X12_mentions_per_row_witness :
  exists s delta,
    sample_row (chars "Jane Doe,, John Smith,") !! "authors" = Some (Some s)
    /\ length (resolutions delta) = 4%nat.
Proof.
  destruct (X12_mentions_per_row accept_all commit_ok
              (sample_row (chars "Jane Doe,, John Smith,")) fresh_world
              (process_row accept_all commit_ok
                 (sample_row (chars "Jane Doe,, John Smith,")) fresh_world).2)
    as (s & delta & Hs & _ & Hres & _); [vm_compute; reflexivity|].
  exists s, delta. split; [exact Hs|].
  rewrite Hres. vm_compute in Hs. injection Hs as <-. reflexivity.
Defined.

Lemma X13_only_trimmed_names_witness :
  exists w' delta,
    process_row accept_all commit_ok (sample_row (chars "Jane Doe, ,John Smith")) fresh_world
    = (Ok tt, w')
    /\ trace w' = trace fresh_world ++ delta
    /\ [] ∈ resolutions delta.
Proof.
  eexists.
  destruct (X13_only_trimmed_names accept_all commit_ok
              (sample_row (chars "Jane Doe, ,John Smith")) fresh_world
              (process_row accept_all commit_ok
                 (sample_row (chars "Jane Doe, ,John Smith")) fresh_world).2
              ltac:(vm_compute; reflexivity))
    as (s & delta & added & Hs & Ht & _ & _ & _ & Hempty).
  exists delta. split; [vm_compute; reflexivity|]. split; [exact Ht|].
  apply Hempty. exists (chars " "). split; [|reflexivity].
  vm_compute in Hs. injection Hs as <-. vm_compute. right. left.
Defined.

Lemma X14_clean_run_iff_readable_witness :
  (exists w',
      ingest accept_all commit_ok (CsvRow <$> [sample_row (chars "Jane Doe"); sample_row (chars "")])
        fresh_world = (Ok tt, w'))
  /\ (exists rows,
         [CsvRow (sample_row (chars "Jane Doe"))] = CsvRow <$> rows /\ Forall readable rows).
Proof.
  split.
  - apply (proj2 (X14_clean_run_iff_readable accept_all commit_ok
                    (CsvRow <$> [sample_row (chars "Jane Doe"); sample_row (chars "")]) fresh_world)
                 accept_all_accepts commit_ok_accepts
                 [sample_row (chars "Jane Doe"); sample_row (chars "")] eq_refl).
    constructor; [apply sample_row_readable|].
    constructor; [apply sample_row_readable|constructor].
  - apply (proj1 (X14_clean_run_iff_readable accept_all commit_ok
                    [CsvRow (sample_row (chars "Jane Doe"))] fresh_world)
                 (ingest accept_all commit_ok [CsvRow (sample_row (chars "Jane Doe"))] fresh_world).2).
    vm_compute. reflexivity.
Defined.

Lemma X15_row_without_new_author_witness :
  exists w1 e w2,
    process_row accept_all commit_ok (sample_row (chars "A")) fresh_world = (Ok tt, w1)
    /\ process_row accept_all (fun _ => Some "connection lost") (sample_row (chars "A,A")) w1
       = (Raise e, w2)
    /\ committed w2 = committed w1.
Proof.
  do 3 eexists. split; [vm_compute; reflexivity|]. split; [vm_compute; reflexivity|].
  destruct (X15_row_without_new_author accept_all (fun _ => Some "connection lost")
              (sample_row (chars "A,A"))
              (process_row accept_all commit_ok (sample_row (chars "A")) fresh_world).2
              _ _
              ltac:(intros n Hn; vm_compute in Hn;
                    apply elem_of_cons in Hn as [->|Hn];
                    [|apply elem_of_cons in Hn as [->|Hn]; [|inversion Hn]];
                    eexists; vm_compute; reflexivity)
              ltac:(vm_compute; reflexivity))
    as [[Hok _]|(e & _ & Hd)]; [discriminate|exact Hd].
Defined.

Lemma X16_books_in_file_order_witness :
  exists w',
    ingest accept_all commit_ok (CsvRow <$> [sample_row (chars "A"); sample_row (chars "B")]) fresh_world
    = (Ok tt, w')
    /\ books.book_id <$> t_books (current w') = [1; 2].
Proof.
  eexists. split; [vm_compute; reflexivity|].
  rewrite (proj1 (X16_books_in_file_order accept_all commit_ok
                    [sample_row (chars "A"); sample_row (chars "B")] fresh_world _
                    ltac:(vm_compute; reflexivity))).
  reflexivity.
Defined.
